(** * Gallery view controller (script.js): shallow embedding and properties

    The script keeps two closure variables, [images] and [currentIndex], and
    drives a handful of DOM elements.  Every function of the script is
    embedded as a computation in a small state-and-exception monad: a
    JavaScript exception aborts the rest of a block but keeps every
    assignment made before it, so a computation returns a completion
    together with the state reached.

    Asynchrony.  The handlers are [async] and receive the outcome of their
    remote call as an argument.  [fetchImages] and [handleUpload] read and
    write the gallery only on one side of their [await]s, so each is a
    single transition.  [deleteImage] reads the state before its [await]
    and again after it: it is embedded in two parts, [deleteImage_begin] up
    to the [await] and [deleteImage_resume] after it, between which other
    handlers may run; [deleteImage] itself is the run in which none does.
    The one call that is not awaited ([fetchImages()] inside [handleUpload])
    is embedded by its synchronous prefix, the rest of it being a later
    transition of its own.  A [Throw] completion of a handler is an
    exception (for an [async] handler, a rejected promise) that nothing
    catches.

    The page.  The HTML is not part of the script: the page is taken to hold
    the elements the script looks up by id, and no [.thumbnail-container]
    outside the reel; the names its global object defines are an argument
    of the one handler that depends on them.

    Strings.  A string of the model is the JavaScript string in WTF-8
    (UTF-8, with a lone surrogate as the three bytes its code point would
    take). *)

From Stdlib Require Import ZArith NArith List Ascii String Bool Lia.
Import ListNotations.
Local Open Scope string_scope.
Local Open Scope Z_scope.
Local Open Scope list_scope.

(** ** Data model *)

(** One entry of the JSON array served by [GET /api/images]. *)
Record ImageRecord : Type := mkImage {
  public_id : string;
  url : string;
  filename : string
}.

(** An [<img>] placed in a [.thumbnail-container] by [displayThumbnails]. *)
Record Thumb : Type := mkThumb {
  t_src : string;        (* imgElement.src *)
  t_index : Z;           (* the [index] captured by the click listener;
                            alt, title and the number label show index + 1 *)
  t_selected : bool      (* classList contains 'selected' *)
}.

(** The part of the document the script reads or writes. *)
Record Page : Type := mkPage {
  reel_placeholder : bool;   (* imageReel holds the "No images found" paragraph *)
  thumbs : list Thumb;       (* document.querySelectorAll('.thumbnail-container img') *)
  large_src : string;        (* elements.largeImage.src *)
  detail_hidden : bool;      (* elements.imageDetail.classList contains 'hidden' *)
  prev_disabled : bool;      (* elements.prevBtn.disabled *)
  next_disabled : bool;      (* elements.nextBtn.disabled *)
  upload_disabled : bool;    (* the #upload-btn element's disabled flag *)
  upload_text : string;      (* the #upload-btn element's textContent *)
  file_input : list string   (* fileInput.files, by file name *)
}.

Inductive ErrorKind : Type :=
| TypeError
| ReferenceError
| SyntaxError
| URIError
| PlainError.              (* new Error(msg) *)

Record Error : Type := mkError {
  kind : ErrorKind;
  message : string
}.

Inductive Request : Type :=
| GetImages                          (* fetch('/api/images') *)
| DeleteImage (publicId : string)    (* DELETE /api/delete/${encodeURIComponent(publicId)} *)
| PostUpload (file : string).        (* POST /api/upload, multipart field "file" *)

(** What the user and the network can observe, in the order it happens. *)
Inductive Effect : Type :=
| Alert (msg : string)
| Confirm (msg : string)
| ConsoleError (label : string) (e : Error)
| Fetch (r : Request)
| ScrollReelToEnd
| PreventDefault.

Record State : Type := mkState {
  images : list ImageRecord;
  currentIndex : Z;
  page : Page;
  trace : list Effect
}.

(** The outcome of [await fetch(...)]: the promise rejects, or it yields a
    response with an [ok] flag and a body. *)
Inductive Fetched (B : Type) : Type :=
| Rejected (e : Error)
| Responded (ok : bool) (body : B).
Arguments Rejected {B} e.
Arguments Responded {B} ok body.

(** The outcome of [await response.json()]. *)
Inductive Json (A : Type) : Type :=
| Parsed (a : A)
| Unparsable (e : Error).
Arguments Parsed {A} a.
Arguments Unparsable {A} e.

(** ** JavaScript arrays *)

Definition len {A : Type} (l : list A) : Z := Z.of_nat (List.length l).

(** [l[i]]: [None] stands for [undefined]. *)
Definition js_index {A : Type} (l : list A) (i : Z) : option A :=
  if i <? 0 then None else nth_error l (Z.to_nat i).

Fixpoint remove_at {A : Type} (k : nat) (l : list A) : list A :=
  match l, k with
  | [], _ => []
  | _ :: t, O => t
  | x :: t, S k' => x :: remove_at k' t
  end.

(** [l.splice(start, 1)]: a negative start counts from the end, a start
    beyond the end removes nothing. *)
Definition splice_start (n start : Z) : Z :=
  if start <? 0 then Z.max (n + start) 0 else Z.min start n.

Definition splice1 {A : Type} (start : Z) (l : list A) : list A :=
  remove_at (Z.to_nat (splice_start (len l) start)) l.

(** ** The monad *)

Inductive Completion (A : Type) : Type :=
| Normal (a : A)
| Throw (e : Error).
Arguments Normal {A} a.
Arguments Throw {A} e.

Definition M (A : Type) : Type := State -> Completion A * State.

Definition ret {A : Type} (a : A) : M A := fun s => (Normal a, s).

Definition bind {A B : Type} (m : M A) (k : A -> M B) : M B :=
  fun s =>
    match m s with
    | (Normal a, s') => k a s'
    | (Throw e, s') => (Throw e, s')
    end.

Definition throw {A : Type} (e : Error) : M A := fun s => (Throw e, s).

Definition gets {A : Type} (f : State -> A) : M A := fun s => (Normal (f s), s).

Definition modify (f : State -> State) : M unit := fun s => (Normal tt, f s).

(** [try { body } catch (error) { handler }] *)
Definition try_catch {A : Type} (body : M A) (handler : Error -> M A) : M A :=
  fun s =>
    match body s with
    | (Normal a, s') => (Normal a, s')
    | (Throw e, s') => handler e s'
    end.

(** [try { body } catch (error) { handler } finally { cleanup }]: the
    cleanup runs on every exit, and an exception of the cleanup replaces the
    completion reached before it. *)
Definition try_catch_finally {A : Type}
    (body : M A) (handler : Error -> M A) (cleanup : M unit) : M A :=
  fun s =>
    match try_catch body handler s with
    | (c, s') =>
        match cleanup s' with
        | (Normal _, s'') => (c, s'')
        | (Throw e, s'') => (Throw e, s'')
        end
    end.

Declare Scope js_scope.
Delimit Scope js_scope with js.
Notation "x <- m ;; k" := (bind m (fun x => k))
  (at level 100, m at next level, right associativity) : js_scope.
Notation "m ;; k" := (bind m (fun _ => k))
  (at level 100, right associativity) : js_scope.
Local Open Scope js_scope.

(** ** State and page updates *)

Definition set_images (l : list ImageRecord) : M unit :=
  modify (fun s => mkState l (currentIndex s) (page s) (trace s)).

Definition set_currentIndex (i : Z) : M unit :=
  modify (fun s => mkState (images s) i (page s) (trace s)).

Definition modify_page (f : Page -> Page) : M unit :=
  modify (fun s => mkState (images s) (currentIndex s) (f (page s)) (trace s)).

Definition emit (e : Effect) : M unit :=
  modify (fun s => mkState (images s) (currentIndex s) (page s) (trace s ++ [e])).

Definition with_reel (ph : bool) (ts : list Thumb) (p : Page) : Page :=
  mkPage ph ts (large_src p) (detail_hidden p) (prev_disabled p)
         (next_disabled p) (upload_disabled p) (upload_text p) (file_input p).

Definition with_thumbs (ts : list Thumb) (p : Page) : Page :=
  with_reel (reel_placeholder p) ts p.

Definition with_large_src (v : string) (p : Page) : Page :=
  mkPage (reel_placeholder p) (thumbs p) v (detail_hidden p) (prev_disabled p)
         (next_disabled p) (upload_disabled p) (upload_text p) (file_input p).

Definition with_detail_hidden (v : bool) (p : Page) : Page :=
  mkPage (reel_placeholder p) (thumbs p) (large_src p) v (prev_disabled p)
         (next_disabled p) (upload_disabled p) (upload_text p) (file_input p).

Definition with_prev_disabled (v : bool) (p : Page) : Page :=
  mkPage (reel_placeholder p) (thumbs p) (large_src p) (detail_hidden p) v
         (next_disabled p) (upload_disabled p) (upload_text p) (file_input p).

Definition with_next_disabled (v : bool) (p : Page) : Page :=
  mkPage (reel_placeholder p) (thumbs p) (large_src p) (detail_hidden p)
         (prev_disabled p) v (upload_disabled p) (upload_text p) (file_input p).

Definition with_upload_disabled (v : bool) (p : Page) : Page :=
  mkPage (reel_placeholder p) (thumbs p) (large_src p) (detail_hidden p)
         (prev_disabled p) (next_disabled p) v (upload_text p) (file_input p).

Definition with_upload_text (v : string) (p : Page) : Page :=
  mkPage (reel_placeholder p) (thumbs p) (large_src p) (detail_hidden p)
         (prev_disabled p) (next_disabled p) (upload_disabled p) v (file_input p).

Definition with_file_input (v : list string) (p : Page) : Page :=
  mkPage (reel_placeholder p) (thumbs p) (large_src p) (detail_hidden p)
         (prev_disabled p) (next_disabled p) (upload_disabled p) (upload_text p) v.

(** ** Browser primitives *)

Definition alert (msg : string) : M unit := emit (Alert msg).

Definition console_error (label : string) (e : Error) : M unit :=
  emit (ConsoleError label e).

(** [confirm(msg)]: the prompt is shown and the user's answer is returned. *)
Definition confirm (msg : string) (answer : bool) : M bool :=
  emit (Confirm msg) ;; ret answer.

(** [await fetch(r)]: the request goes out; a rejected promise throws. *)
Definition fetch {B : Type} (r : Request) (outcome : Fetched B) : M (bool * B) :=
  emit (Fetch r) ;;
  match outcome with
  | Rejected e => throw e
  | Responded ok body => ret (ok, body)
  end.

(** The second half of [await fetch(r)]: the promise of a request that is
    already out settles. *)
Definition settle {B : Type} (outcome : Fetched B) : M (bool * B) :=
  match outcome with
  | Rejected e => throw e
  | Responded ok body => ret (ok, body)
  end.

(** [await response.json()] *)
Definition json {A : Type} (body : Json A) : M A :=
  match body with
  | Parsed a => ret a
  | Unparsable e => throw e
  end.

(** [l[i].prop]: reading a property of [undefined] is a TypeError. *)
Definition read_at {A B : Type} (l : list A) (i : Z) (prop : string) (get : A -> B) : M B :=
  match js_index l i with
  | Some x => ret (get x)
  | None =>
      throw (mkError TypeError
               ("Cannot read properties of undefined (reading '" ++ prop ++ "')")%string)
  end.

(** [l.forEach((x, index) => body)] *)
Fixpoint forEach_from {A : Type} (body : A -> Z -> M unit) (index : Z) (l : list A) : M unit :=
  match l with
  | [] => ret tt
  | x :: t => body x index ;; forEach_from body (index + 1) t
  end.

Definition forEach {A : Type} (l : list A) (body : A -> Z -> M unit) : M unit :=
  forEach_from body 0 l.

(** [encodeURIComponent]: every byte but the unreserved ones
    (letters, digits and [-_.!~*'()]) is replaced by its percent escape; a
    string with a lone surrogate is a URIError, here [None].  In WTF-8 a
    lone surrogate is the lead byte ED followed by a byte from A0 up. *)
Definition unreserved (c : ascii) : bool :=
  let n := N_of_ascii c in
  ((48 <=? n) && (n <=? 57) || (65 <=? n) && (n <=? 90) ||
   (97 <=? n) && (n <=? 122))%N ||
  existsb (Ascii.eqb c) (list_ascii_of_string "-_.!~*'()").

Definition hex_digit (n : N) : ascii :=
  nth (N.to_nat n) (list_ascii_of_string "0123456789ABCDEF") "0"%char.

Definition percent_escape (c : ascii) : string :=
  String "%"%char
    (String (hex_digit (N_of_ascii c / 16)%N)
       (String (hex_digit (N_of_ascii c mod 16)%N) EmptyString)).

Fixpoint escape_bytes (s : string) : string :=
  match s with
  | EmptyString => EmptyString
  | String c rest =>
      if unreserved c then String c (escape_bytes rest)
      else (percent_escape c ++ escape_bytes rest)%string
  end.

Fixpoint has_lone_surrogate (s : string) : bool :=
  match s with
  | EmptyString => false
  | String c rest =>
      match rest with
      | EmptyString => false
      | String d _ =>
          ((N_of_ascii c =? 237) && (160 <=? N_of_ascii d))%N ||
          has_lone_surrogate rest
      end
  end.

Definition encodeURIComponent (s : string) : option string :=
  if has_lone_surrogate s then None else Some (escape_bytes s).

(** A number used as a condition: [0] is falsy. *)
Definition truthy (n : Z) : bool := negb (n =? 0).

(** [a || b] on a string that may be missing: [undefined] and [''] are falsy. *)
Definition or_else (v : option string) (d : string) : string :=
  match v with
  | Some m => if String.eqb m "" then d else m
  | None => d
  end.

(** ** Identifier resolution

    An identifier is looked up in the block where it occurs, then in the
    enclosing blocks and functions, and last on the global object.  For the
    elements of the page the model follows the binding down to the id of the
    element; any other value is [BOther]. *)

Inductive Binding : Type :=
| BElem (id : string)
| BOther.

Definition Scope : Type := list (string * Binding).

Fixpoint lookup (sc : Scope) (x : string) : option Binding :=
  match sc with
  | [] => None
  | (y, b) :: rest => if String.eqb x y then Some b else lookup rest x
  end.

Fixpoint resolve (chain : list Scope) (x : string) : option Binding :=
  match chain with
  | [] => None
  | sc :: outer =>
      match lookup sc x with
      | Some b => Some b
      | None => resolve outer x
      end
  end.

(** The declarations of the callback passed to [DOMContentLoaded]. *)
Definition scope_main : Scope :=
  [("elements", BOther); ("images", BOther); ("currentIndex", BOther);
   ("toggleFullscreen", BOther); ("deleteImage", BOther); ("fetchImages", BOther);
   ("displayThumbnails", BOther); ("showImage", BOther);
   ("highlightCurrentImage", BOther); ("handleUpload", BOther)].

(** The parameter and the declarations of [handleUpload]'s body. *)
Definition scope_handleUpload : Scope :=
  [("e", BOther); ("fileInput", BElem "file-input"); ("file", BOther);
   ("formData", BOther)].

(** The declarations of [handleUpload]'s [try] block. *)
Definition scope_try : Scope :=
  [("uploadBtn", BElem "upload-btn"); ("response", BOther)].

(** [handleUpload]'s [finally] block declares nothing. *)
Definition scope_finally : Scope := [].

(** The ids the script passes to [document.getElementById]. *)
Definition script_ids : list string :=
  ["image-reel"; "large-image"; "image-detail"; "refresh"; "download-zip";
   "download-pdf"; "prev"; "next"; "save"; "fullscreen"; "delete";
   "upload-form"; "upload-btn"; "file-input"].

(** Named access on the global object: an element is reachable under its id. *)
Definition named_access (ids : list string) : Scope :=
  map (fun id => (id, BElem id)) ids.

(** [el.disabled = v] and [el.textContent = v] for the element with the
    given id; the page records these properties for the three buttons the
    script writes them on. *)
Definition set_disabled (v : bool) (id : string) : Page -> Page :=
  if String.eqb id "upload-btn" then with_upload_disabled v
  else if String.eqb id "prev" then with_prev_disabled v
  else if String.eqb id "next" then with_next_disabled v
  else fun p => p.

Definition set_textContent (v : string) (id : string) : Page -> Page :=
  if String.eqb id "upload-btn" then with_upload_text v else fun p => p.

(** [x.prop = v] where [x] is an identifier: an unresolvable [x] is a
    ReferenceError; a property written on a value that is not an element
    leaves the page alone. *)
Definition assign_on (chain : list Scope) (x : string) (write : string -> Page -> Page) : M unit :=
  match resolve chain x with
  | None => throw (mkError ReferenceError (x ++ " is not defined")%string)
  | Some (BElem id) => modify_page (write id)
  | Some BOther => ret tt
  end.

(** ** The functions of script.js *)

Fixpoint mapi_from {A B : Type} (f : A -> Z -> B) (i : Z) (l : list A) : list B :=
  match l with
  | [] => []
  | x :: t => f x i :: mapi_from f (i + 1) t
  end.

(** [img.classList.toggle('selected', on)] *)
Definition toggle_selected (on : bool) (img : Thumb) : Thumb :=
  mkThumb (t_src img) (t_index img) on.

Definition highlightCurrentImage : M unit :=
  ci <- gets currentIndex ;;
  modify_page (fun p =>
    with_thumbs (mapi_from (fun img i => toggle_selected (i =? ci) img) 0 (thumbs p)) p).

Definition showImage (index : Z) : M unit :=
  set_currentIndex index ;;
  imgs <- gets images ;;
  src <- read_at imgs index "url" url ;;
  modify_page (with_large_src src) ;;
  modify_page (with_detail_hidden false) ;;
  highlightCurrentImage ;;
  modify_page (with_prev_disabled (index =? 0)) ;;
  imgs <- gets images ;;
  modify_page (with_next_disabled (index =? len imgs - 1)).

Definition appendThumb (t : Thumb) : M unit :=
  modify_page (fun p => with_thumbs (thumbs p ++ [t]) p).

Definition displayThumbnails : M unit :=
  imgs <- gets images ;;
  modify_page (with_reel (negb (truthy (len imgs))) []) ;;
  forEach imgs (fun img index => appendThumb (mkThumb (url img) index false)) ;;
  highlightCurrentImage.

(** [deleteImage] up to its [await]: [answer] is what the user replies to
    the confirmation prompt.  The value is the [publicId] of the request in
    flight when the handler is suspended at the [await], and [None] when
    the handler is over. *)
Definition deleteImage_begin (answer : bool) : M (option string) :=
  imgs <- gets images ;;
  ci <- gets currentIndex ;;
  stop <- (if len imgs =? 0 then ret true
           else if ci <? 0 then ret true
           else (yes <- confirm "Delete this image?" answer ;; ret (negb yes))) ;;
  if (stop : bool) then ret None
  else
    publicId <- read_at imgs ci "public_id" public_id ;;
    try_catch
      (match encodeURIComponent publicId with
       | None => throw (mkError URIError "URI malformed")
       | Some _ => emit (Fetch (DeleteImage publicId)) ;; ret (Some publicId)
       end)
      (fun error =>
         console_error "Deletion error:" error ;;
         alert "Failed to delete. Try again." ;;
         ret None).

(** [deleteImage] from its [await] on, in the state the script is in when
    the response arrives: [outcome] is what the DELETE request comes back
    with. *)
Definition deleteImage_resume (outcome : Fetched unit) : M unit :=
  try_catch
    (response <- settle outcome ;;
     if negb (fst response) then throw (mkError PlainError "Deletion failed")
     else
       ci <- gets currentIndex ;;
       imgs <- gets images ;;
       set_images (splice1 ci imgs) ;;
       imgs <- gets images ;;
       (if len imgs =? 0 then modify_page (with_detail_hidden true)
        else
          ci <- gets currentIndex ;;
          set_currentIndex (Z.min ci (len imgs - 1)) ;;
          ci <- gets currentIndex ;;
          showImage ci) ;;
       displayThumbnails)
    (fun error =>
       console_error "Deletion error:" error ;;
       alert "Failed to delete. Try again.").

(** [deleteImage] when no other handler runs while it awaits the
    response. *)
Definition deleteImage (answer : bool) (outcome : Fetched unit) : M unit :=
  pending <- deleteImage_begin answer ;;
  match pending with
  | Some _ => deleteImage_resume outcome
  | None => ret tt
  end.

(** [outcome] is what the listing request comes back with. *)
Definition fetchImages (outcome : Fetched (Json (list ImageRecord))) : M unit :=
  try_catch
    (response <- fetch GetImages outcome ;;
     if negb (fst response) then throw (mkError PlainError "Fetch failed")
     else
       newImages <- json (snd response) ;;
       imgs <- gets images ;;
       (if len newImages >? len imgs then
          set_currentIndex (len newImages - 1) ;;
          emit ScrollReelToEnd
        else ret tt) ;;
       set_images newImages ;;
       displayThumbnails ;;
       imgs <- gets images ;;
       if truthy (len imgs) then (ci <- gets currentIndex ;; showImage ci)
       else modify_page (with_detail_hidden true))
    (fun error =>
       console_error "Fetch error:" error ;;
       alert "Failed to load images. Refresh page.").

(** [window] is the global object the page gives the script; [outcome] is
    what the upload request comes back with, the body being the [error]
    field of the JSON object of a failure response.  On success the script
    calls [fetchImages()] without awaiting it: the listing request goes out
    and the rest of that call runs after this handler is over. *)
Definition handleUpload (window : Scope) (outcome : Fetched (Json (option string))) : M unit :=
  emit PreventDefault ;;
  files <- gets (fun s => file_input (page s)) ;;
  match files with
  | [] => alert "Please select a file to upload"
  | file :: _ =>
      let outer := [scope_handleUpload; scope_main; window] in
      try_catch_finally
        (assign_on (scope_try :: outer) "uploadBtn" (set_disabled true) ;;
         assign_on (scope_try :: outer) "uploadBtn" (set_textContent "Uploading...") ;;
         response <- fetch (PostUpload file) outcome ;;
         (if negb (fst response) then
            errorData <- json (snd response) ;;
            throw (mkError PlainError (or_else errorData "Upload failed"))
          else ret tt) ;;
         modify_page (with_file_input []) ;;
         emit (Fetch GetImages))
        (fun error =>
           console_error "Upload error:" error ;;
           alert ("Failed to upload: " ++ message error)%string)
        (assign_on (scope_finally :: outer) "uploadBtn" (set_disabled false) ;;
         assign_on (scope_finally :: outer) "uploadBtn" (set_textContent "Upload"))
  end.

(** The click listeners of the previous and next buttons. *)
Definition prevBtn_click : M unit :=
  ci <- gets currentIndex ;;
  if ci >? 0 then showImage (ci - 1) else ret tt.

Definition nextBtn_click : M unit :=
  ci <- gets currentIndex ;;
  imgs <- gets images ;;
  if ci <? len imgs - 1 then showImage (ci + 1) else ret tt.

(** The click listener of the [k]-th thumbnail of the reel. *)
Definition thumbnail_click (k : nat) : M unit :=
  ts <- gets (fun s => thumbs (page s)) ;;
  match nth_error ts k with
  | Some t => showImage (t_index t)
  | None => ret tt
  end.

(** The [keydown] listener of the document.  The [deleteImage()] that
    Ctrl+Delete starts is given here as the run no other handler
    interrupts. *)
Definition keydown (key : string) (ctrlKey : bool)
    (answer : bool) (outcome : Fetched unit) : M unit :=
  imgs <- gets images ;;
  if negb (truthy (len imgs)) then ret tt
  else if String.eqb key "ArrowLeft" then
    ci <- gets currentIndex ;;
    if ci >? 0 then showImage (ci - 1) else ret tt
  else if String.eqb key "ArrowRight" then
    ci <- gets currentIndex ;;
    imgs <- gets images ;;
    if ci <? len imgs - 1 then showImage (ci + 1) else ret tt
  else if String.eqb key "Delete" then
    if ctrlKey then deleteImage answer outcome else ret tt
  else ret tt.

(** The [error] listener of the large image. *)
Definition largeImage_error : M unit :=
  alert "Image load failed. Refresh the page." ;;
  modify_page (with_detail_hidden true).

(** ** Sample data *)

Definition imgA : ImageRecord := mkImage "a" "http://img/a.jpg" "a.jpg".
Definition imgB : ImageRecord := mkImage "b" "http://img/b.jpg" "b.jpg".
Definition imgC : ImageRecord := mkImage "c" "http://img/c.jpg" "c.jpg".
Definition imgD : ImageRecord := mkImage "d" "http://img/d.jpg" "d.jpg".

(** A record whose [public_id] is the lone surrogate U+D800. *)
Definition imgBad : ImageRecord :=
  mkImage (String (ascii_of_N 237) (String (ascii_of_N 160)
             (String (ascii_of_N 128) EmptyString)))
          "http://img/bad.jpg" "bad.jpg".

Definition blank_page : Page :=
  mkPage false [] "" true false false false "Upload" [].

(** A list of one image with [currentIndex] beyond it. *)
Definition gallery_dangling : State := mkState [imgA] 2 blank_page [].

(** The state the script starts from: [images = []], [currentIndex = 0]. *)
Definition initial (p : Page) : State := mkState [] 0 p [].

(** A gallery of one image with a file chosen in the upload form. *)
Definition gallery_with_file : State :=
  mkState [imgA] 0 (with_file_input ["photo.png"] blank_page) [].

(** The gallery after the first listing of three images: the third one is
    selected. *)
Definition gallery_ABC : State :=
  snd (fetchImages (Responded true (Parsed [imgA; imgB; imgC])) (initial blank_page)).

(** ** What the rendering functions compute *)

(** The reel [displayThumbnails] builds from a list. *)
Definition rendered (ci : Z) (imgs : list ImageRecord) : list Thumb :=
  mapi_from (fun img i => mkThumb (url img) i (i =? ci)) 0 imgs.

(** The reel after [highlightCurrentImage]. *)
Definition highlighted (ci : Z) (ts : list Thumb) : list Thumb :=
  mapi_from (fun img i => toggle_selected (i =? ci) img) 0 ts.

(** The positions of the thumbnails that carry the 'selected' class. *)
Fixpoint selected_from (i : Z) (ts : list Thumb) : list Z :=
  match ts with
  | [] => []
  | t :: rest =>
      if t_selected t then i :: selected_from (i + 1) rest
      else selected_from (i + 1) rest
  end.

Definition selected_positions (ts : list Thumb) : list Z := selected_from 0 ts.

(** The state [showImage index] reaches when [images[index]] is [img]. *)
Definition shown (index : Z) (img : ImageRecord) (s : State) : State :=
  mkState (images s) index
    (mkPage (reel_placeholder (page s)) (highlighted index (thumbs (page s)))
       (url img) false (index =? 0) (index =? len (images s) - 1)
       (upload_disabled (page s)) (upload_text (page s)) (file_input (page s)))
    (trace s).

(** The state [displayThumbnails] reaches. *)
Definition displayed (s : State) : State :=
  mkState (images s) (currentIndex s)
    (with_reel (negb (truthy (len (images s))))
       (rendered (currentIndex s) (images s)) (page s))
    (trace s).

Definition undefined_read (prop : string) : Error :=
  mkError TypeError ("Cannot read properties of undefined (reading '" ++ prop ++ "')")%string.

(** ** What the handlers compute *)

(** The state with further observable effects and nothing else changed. *)
Definition add_trace (es : list Effect) (s : State) : State :=
  mkState (images s) (currentIndex s) (page s) (trace s ++ es).

Definition hide_detail (s : State) : State :=
  mkState (images s) (currentIndex s) (with_detail_hidden true (page s)) (trace s).

(** The error a listing outcome raises inside [fetchImages]'s [try] block
    before the script touches its state, if any. *)
Definition listing_failure (outcome : Fetched (Json (list ImageRecord))) : option Error :=
  match outcome with
  | Rejected e => Some e
  | Responded false _ => Some (mkError PlainError "Fetch failed")
  | Responded true (Unparsable e) => Some e
  | Responded true (Parsed _) => None
  end.

Definition delete_failure (outcome : Fetched unit) : option Error :=
  match outcome with
  | Rejected e => Some e
  | Responded false _ => Some (mkError PlainError "Deletion failed")
  | Responded true _ => None
  end.

(** [fetchImages] after [images = newImages; displayThumbnails()]. *)
Definition reconciled (newImages : list ImageRecord) (s : State) : State :=
  if len newImages >? len (images s) then
    displayed (mkState newImages (len newImages - 1) (page s)
                 ((trace s ++ [Fetch GetImages]) ++ [ScrollReelToEnd]))
  else
    displayed (mkState newImages (currentIndex s) (page s)
                 (trace s ++ [Fetch GetImages])).

(** [deleteImage] after the confirmed request came back ok and
    [images.splice(currentIndex, 1)] ran. *)
Definition spliced (img : ImageRecord) (s : State) : State :=
  mkState (splice1 (currentIndex s) (images s)) (currentIndex s) (page s)
    (trace s ++ [Confirm "Delete this image?"; Fetch (DeleteImage (public_id img))]).

(** The remote call of a handler failed: the promise was rejected or the
    response status is not ok. *)
Definition remote_failed {B : Type} (outcome : Fetched B) : bool :=
  match outcome with
  | Rejected _ => true
  | Responded ok _ => negb ok
  end.

(** The last observable effect. *)
Definition last_effect (s : State) : option Effect :=
  match rev (trace s) with
  | [] => None
  | e :: _ => Some e
  end.

(** The requests among the observable effects. *)
Fixpoint requests (tr : list Effect) : list Request :=
  match tr with
  | [] => []
  | Fetch r :: rest => r :: requests rest
  | _ :: rest => requests rest
  end.

(** ** The event loop

    Every handler the script registers is a transition of the state. *)

Inductive Event : Type :=
| Listing (outcome : Fetched (Json (list ImageRecord)))
    (* the first load, a poll tick, a click on refresh, or the listing an
       upload has started, once its response is in *)
| DeleteClick (answer : bool) (outcome : Fetched unit)
    (* a click on delete whose response arrives before any other event *)
| DeleteStarted (answer : bool)
    (* a click on delete, up to the point where the handler awaits *)
| DeleteSettled (outcome : Fetched unit)
    (* the response of a delete in flight arrives *)
| UploadSubmit (outcome : Fetched (Json (option string)))
| PrevClick
| NextClick
| ThumbnailClick (k : nat)
| KeyDown (key : string) (ctrlKey : bool) (answer : bool) (outcome : Fetched unit)
| LargeImageError
| ChooseFiles (files : list string).   (* the user fills the file input *)

(** [window] is the global object of the page the script runs in. *)
Definition dispatch (window : Scope) (ev : Event) : M unit :=
  match ev with
  | Listing outcome => fetchImages outcome
  | DeleteClick answer outcome => deleteImage answer outcome
  | DeleteStarted answer => _ <- deleteImage_begin answer ;; ret tt
  | DeleteSettled outcome => deleteImage_resume outcome
  | UploadSubmit outcome => handleUpload window outcome
  | PrevClick => prevBtn_click
  | NextClick => nextBtn_click
  | ThumbnailClick k => thumbnail_click k
  | KeyDown key ctrlKey answer outcome => keydown key ctrlKey answer outcome
  | LargeImageError => largeImage_error
  | ChooseFiles files => modify_page (with_file_input files)
  end.

Definition step (window : Scope) (s : State) (ev : Event) : State :=
  snd (dispatch window ev s).

(** The states the script reaches from the page [p] it is loaded in. *)
Inductive reachable (window : Scope) (p : Page) : State -> Prop :=
| reach_initial : reachable window p (initial p)
| reach_step (s : State) (ev : Event) :
    reachable window p s -> reachable window p (step window s ev).

(** ** Invariants *)

(** The gallery part of two states is the same: the list, the index and the
    reel. *)
Definition same_gallery (s s' : State) : Prop :=
  images s' = images s /\
  currentIndex s' = currentIndex s /\
  thumbs (page s') = thumbs (page s).

Definition keeps_gallery {A : Type} (m : M A) : Prop :=
  forall s, same_gallery s (snd (m s)).

(** The reel shows the list: one thumbnail per image, each with the url of
    its image and its own position as click target; and [currentIndex] is
    not negative. *)
Definition reel_matches (s : State) : Prop :=
  0 <= currentIndex s /\
  exists c, thumbs (page s) = rendered c (images s).

(** ** The remaining listeners *)

(** The anchor the save listener creates and clicks. *)
Record Link : Type := mkLink {
  href : string;
  download : string
}.

(** The click listener of the save button.  The value returned is the link
    the listener has clicked, if it has clicked one. *)
Definition saveBtn_click : M (option Link) :=
  imgs <- gets images ;;
  ci <- gets currentIndex ;;
  if truthy (len imgs) && (ci >=? 0) then
    h <- read_at imgs ci "url" url ;;
    d <- read_at imgs ci "filename" filename ;;
    ret (Some (mkLink h d))
  else ret None.

(** Which of the four request methods the large image has. *)
Record FullscreenApi : Type := mkFullscreenApi {
  requestFullscreen : bool;
  mozRequestFullScreen : bool;
  webkitRequestFullscreen : bool;
  msRequestFullscreen : bool
}.

Inductive FullscreenCall : Type :=
| ExitFullscreen             (* document.exitFullscreen() *)
| RequestFullscreen          (* elements.largeImage.requestFullscreen() *)
| MozRequestFullScreen
| WebkitRequestFullscreen
| MsRequestFullscreen.

(** [toggleFullscreen]: the one call it makes, given whether
    [document.fullscreenElement] is set and which methods exist; calling
    [undefined.call] is a TypeError. *)
Definition toggleFullscreen (fullscreenElement : bool) (api : FullscreenApi)
    : Completion FullscreenCall :=
  if fullscreenElement then Normal ExitFullscreen
  else if requestFullscreen api then Normal RequestFullscreen
  else if mozRequestFullScreen api then Normal MozRequestFullScreen
  else if webkitRequestFullscreen api then Normal WebkitRequestFullscreen
  else if msRequestFullscreen api then Normal MsRequestFullscreen
  else Throw (mkError TypeError "Cannot read properties of undefined (reading 'call')").

(** The text [handleUpload] reports after a failed upload: the message of
    the error its [try] block throws. *)
Definition upload_failure_message (outcome : Fetched (Json (option string))) : option string :=
  match outcome with
  | Rejected e => Some (message e)
  | Responded false (Parsed err) => Some (or_else err "Upload failed")
  | Responded false (Unparsable e) => Some (message e)
  | Responded true _ => None
  end.

(** The positions [0, 1, ..., n - 1]. *)
Definition positions (n : nat) : list Z := map Z.of_nat (seq 0 n).

(** The handler [h], run in [s], returns normally, keeps the list and
    leaves [currentIndex] an index of it. *)
Definition steps_within (h : M unit) (s : State) : Prop :=
  exists s',
    h s = (Normal tt, s') /\
    images s' = images s /\
    0 <= currentIndex s' < len (images s').

(** The state after the first listing of three images, as a step of the
    event loop on a page whose global names are the script's ids. *)
Definition first_listing : State :=
  step (named_access script_ids) (initial blank_page)
    (Listing (Responded true (Parsed [imgA; imgB; imgC]))).

(** * Properties *)

Ltac unfold_js :=
  cbv [bind ret throw gets modify try_catch try_catch_finally set_images
       set_currentIndex modify_page emit alert console_error confirm fetch json];
  cbn [fst snd images currentIndex page trace].

(** ** Lists and indices *)

Lemma len_nil {A : Type} : len (@nil A) = 0.
Proof. reflexivity. Qed.

Lemma len_cons {A : Type} (x : A) (l : list A) : len (x :: l) = len l + 1.
Proof. unfold len. cbn [List.length]. lia. Qed.

Lemma len_nonneg {A : Type} (l : list A) : 0 <= len l.
Proof. unfold len. lia. Qed.

Lemma truthy_len_positive {A : Type} (l : list A) : 0 < len l -> truthy (len l) = true.
Proof.
  intros H. unfold truthy. destruct (Z.eqb_spec (len l) 0); [lia | reflexivity].
Qed.

Lemma js_index_in_range {A : Type} (l : list A) (i : Z) :
  0 <= i < len l -> exists x, js_index l i = Some x.
Proof.
  intros H. unfold js_index.
  destruct (Z.ltb_spec i 0) as [Hneg | _]; [lia |].
  destruct (nth_error l (Z.to_nat i)) as [x |] eqn:E; [eauto |].
  apply nth_error_None in E. unfold len in H. lia.
Qed.

Lemma js_index_out_of_range {A : Type} (l : list A) (i : Z) :
  i < 0 \/ len l <= i -> js_index l i = None.
Proof.
  intros H. unfold js_index.
  destruct (Z.ltb_spec i 0) as [Hneg | Hpos]; [reflexivity |].
  apply nth_error_None. unfold len in H. lia.
Qed.

Lemma js_index_some_range {A : Type} (l : list A) (i : Z) (x : A) :
  js_index l i = Some x -> 0 <= i < len l.
Proof.
  unfold js_index. intros H.
  destruct (Z.ltb_spec i 0) as [Hneg | Hpos]; [discriminate |].
  assert (Hlt : (Z.to_nat i < List.length l)%nat)
    by (apply nth_error_Some; congruence).
  unfold len. lia.
Qed.

Lemma remove_at_firstn_skipn {A : Type} (k : nat) (l : list A) :
  remove_at k l = firstn k l ++ skipn (S k) l.
Proof.
  revert k. induction l as [| x t IH]; intros [| k]; cbn; try reflexivity.
  - now rewrite IH.
Qed.

Lemma remove_at_length {A : Type} (k : nat) (l : list A) :
  (k < List.length l)%nat -> List.length (remove_at k l) = pred (List.length l).
Proof.
  revert k. induction l as [| x t IH]; intros k Hk; cbn in *; [lia |].
  destruct k as [| k]; [reflexivity |].
  cbn. rewrite IH by lia. lia.
Qed.

Lemma splice1_in_range {A : Type} (i : Z) (l : list A) :
  0 <= i < len l -> splice1 i l = remove_at (Z.to_nat i) l.
Proof.
  intros H. unfold splice1, splice_start.
  destruct (Z.ltb_spec i 0); [lia |].
  now rewrite Z.min_l by lia.
Qed.

Lemma len_splice1 {A : Type} (i : Z) (l : list A) :
  0 <= i < len l -> len (splice1 i l) = len l - 1.
Proof.
  intros H. rewrite splice1_in_range by exact H.
  unfold len in *. rewrite remove_at_length by lia. lia.
Qed.

Lemma mapi_from_length {A B : Type} (f : A -> Z -> B) (i : Z) (l : list A) :
  List.length (mapi_from f i l) = List.length l.
Proof.
  revert i. induction l as [| x t IH]; intros i; cbn; [reflexivity |].
  now rewrite IH.
Qed.

Lemma mapi_from_mapi_from {A B C : Type} (f : A -> Z -> B) (g : B -> Z -> C)
    (i : Z) (l : list A) :
  mapi_from g i (mapi_from f i l) = mapi_from (fun x j => g (f x j) j) i l.
Proof.
  revert i. induction l as [| x t IH]; intros i; cbn; [reflexivity |].
  now rewrite IH.
Qed.

Lemma len_rendered (ci : Z) (imgs : list ImageRecord) : len (rendered ci imgs) = len imgs.
Proof. unfold len, rendered. now rewrite mapi_from_length. Qed.

(** Highlighting leaves the marker on position [ci] alone, when the reel
    has such a position. *)
Lemma selected_from_highlight (ci k : Z) (ts : list Thumb) :
  selected_from k (mapi_from (fun img i => toggle_selected (i =? ci) img) k ts) =
  if (k <=? ci) && (ci <? k + len ts) then [ci] else [].
Proof.
  revert k. induction ts as [| t rest IH]; intros k.
  - cbn [mapi_from selected_from]. rewrite len_nil.
    destruct (Z.leb_spec k ci), (Z.ltb_spec ci (k + 0)); cbn; reflexivity || lia.
  - cbn [mapi_from selected_from toggle_selected t_selected].
    rewrite IH, len_cons.
    destruct (Z.eqb_spec k ci) as [-> | Hne].
    + rewrite Z.leb_refl.
      destruct (Z.leb_spec (ci + 1) ci); [lia |].
      destruct (Z.ltb_spec ci (ci + (len rest + 1))); [| pose proof (len_nonneg rest); lia].
      reflexivity.
    + destruct (Z.leb_spec (k + 1) ci), (Z.leb_spec k ci),
        (Z.ltb_spec ci (k + 1 + len rest)), (Z.ltb_spec ci (k + (len rest + 1)));
        cbn; reflexivity || lia.
Qed.

Lemma selected_highlighted (ci : Z) (ts : list Thumb) :
  0 <= ci < len ts -> selected_positions (highlighted ci ts) = [ci].
Proof.
  intros H. unfold selected_positions, highlighted.
  rewrite selected_from_highlight.
  destruct (Z.leb_spec 0 ci), (Z.ltb_spec ci (0 + len ts)); cbn; reflexivity || lia.
Qed.

Lemma highlighted_rendered (ci ci' : Z) (imgs : list ImageRecord) :
  highlighted ci (rendered ci' imgs) = rendered ci imgs.
Proof. unfold highlighted, rendered. now rewrite mapi_from_mapi_from. Qed.

(** ** The rendering functions, run *)

Lemma highlightCurrentImage_run (s : State) :
  highlightCurrentImage s =
  (Normal tt,
   mkState (images s) (currentIndex s)
     (with_thumbs (highlighted (currentIndex s) (thumbs (page s))) (page s))
     (trace s)).
Proof. reflexivity. Qed.

Lemma forEach_appendThumb_run (imgs : list ImageRecord) (k : Z) (s : State) :
  forEach_from (fun img index => appendThumb (mkThumb (url img) index false)) k imgs s =
  (Normal tt,
   mkState (images s) (currentIndex s)
     (with_thumbs
        (thumbs (page s) ++ mapi_from (fun img i => mkThumb (url img) i false) k imgs)
        (page s))
     (trace s)).
Proof.
  revert k s. induction imgs as [| img rest IH]; intros k s.
  - cbn [forEach_from mapi_from]. unfold ret. rewrite app_nil_r.
    destruct s as [im ci [ph ts ls dh pd nd ud ut fi] tr]. reflexivity.
  - cbn [forEach_from mapi_from]. unfold bind at 1. unfold appendThumb at 1.
    unfold_js. rewrite IH. cbn. rewrite <- app_assoc. reflexivity.
Qed.

Lemma displayThumbnails_run (s : State) : displayThumbnails s = (Normal tt, displayed s).
Proof.
  unfold displayThumbnails, forEach. unfold bind at 1 2 3. unfold gets at 1. cbn [fst snd].
  unfold modify_page at 1, modify at 1.
  rewrite forEach_appendThumb_run, highlightCurrentImage_run.
  cbn. unfold displayed, with_reel, rendered, highlighted. cbn.
  now rewrite mapi_from_mapi_from.
Qed.

Lemma showImage_run (index : Z) (img : ImageRecord) (s : State) :
  js_index (images s) index = Some img ->
  showImage index s = (Normal tt, shown index img s).
Proof.
  intros H. unfold showImage, read_at. unfold_js. rewrite H.
  unfold_js. rewrite highlightCurrentImage_run. reflexivity.
Qed.

Lemma showImage_throws (index : Z) (s : State) :
  js_index (images s) index = None ->
  showImage index s =
  (Throw (undefined_read "url"),
   mkState (images s) index (page s) (trace s)).
Proof.
  intros H. unfold showImage, read_at. unfold_js. rewrite H. reflexivity.
Qed.

(** ** The handlers, run *)

Lemma fetchImages_failure_run outcome e (s : State) :
  listing_failure outcome = Some e ->
  fetchImages outcome s =
  (Normal tt,
   add_trace [Fetch GetImages; ConsoleError "Fetch error:" e;
              Alert "Failed to load images. Refresh page."] s).
Proof.
  intros H. unfold fetchImages, add_trace.
  destruct outcome as [e0 | [|] [newImages | e0]]; cbn in H; inversion H; subst;
    unfold_js; cbn; repeat rewrite <- app_assoc; reflexivity.
Qed.

Lemma fetchImages_parsed_run (newImages : list ImageRecord) (s : State) :
  fetchImages (Responded true (Parsed newImages)) s =
  let r := reconciled newImages s in
  if truthy (len newImages) then
    match js_index newImages (currentIndex r) with
    | Some img => (Normal tt, shown (currentIndex r) img r)
    | None =>
        (Normal tt,
         add_trace [ConsoleError "Fetch error:" (undefined_read "url");
                    Alert "Failed to load images. Refresh page."] r)
    end
  else (Normal tt, hide_detail r).
Proof.
  unfold fetchImages, reconciled.
  unfold try_catch, bind at 1, fetch. unfold bind at 1. unfold emit at 1, modify at 1.
  unfold ret at 1. cbn [negb fst snd json].
  unfold bind at 1. unfold ret at 1. unfold bind at 1. unfold gets at 1.
  cbn [images].
  destruct (len newImages >? len (images s)).
  - unfold bind at 1. unfold bind at 1. unfold set_currentIndex at 1, modify at 1.
    unfold emit at 1, modify at 1. cbn [images currentIndex page trace].
    unfold bind at 1. unfold set_images at 1, modify at 1.
    cbn [images currentIndex page trace].
    unfold bind at 1. rewrite displayThumbnails_run.
    unfold bind at 1. unfold gets at 1. cbn [images displayed].
    destruct (truthy (len newImages)); [| reflexivity].
    unfold bind at 1. unfold gets at 1. cbn [currentIndex].
    cbv zeta. cbn [currentIndex displayed].
    destruct (js_index newImages (len newImages - 1)) as [img |] eqn:E.
    + rewrite showImage_run with (img := img) by exact E. reflexivity.
    + rewrite showImage_throws by exact E. unfold_js.
      unfold add_trace. cbn. rewrite <- app_assoc. reflexivity.
  - unfold bind at 1. unfold ret at 1.
    unfold bind at 1. unfold set_images at 1, modify at 1.
    cbn [images currentIndex page trace].
    unfold bind at 1. rewrite displayThumbnails_run.
    unfold bind at 1. unfold gets at 1. cbn [images displayed].
    destruct (truthy (len newImages)); [| reflexivity].
    unfold bind at 1. unfold gets at 1. cbn [currentIndex].
    cbv zeta. cbn [currentIndex displayed].
    destruct (js_index newImages (currentIndex s)) as [img |] eqn:E.
    + rewrite showImage_run with (img := img) by exact E. reflexivity.
    + rewrite showImage_throws by exact E. unfold_js.
      unfold add_trace. cbn. rewrite <- app_assoc. reflexivity.
Qed.

Lemma add_trace_add_trace (es1 es2 : list Effect) (s : State) :
  add_trace es2 (add_trace es1 s) = add_trace (es1 ++ es2) s.
Proof. unfold add_trace. cbn. now rewrite app_assoc. Qed.

Lemma deleteImage_guard_passes (s : State) :
  0 < len (images s) -> 0 <= currentIndex s ->
  (len (images s) =? 0) = false /\ (currentIndex s <? 0) = false.
Proof.
  intros H1 H2. split; [apply Z.eqb_neq | apply Z.ltb_ge]; lia.
Qed.

(** *** The part before the await *)

Lemma deleteImage_begin_guard_run answer (s : State) :
  len (images s) = 0 \/ currentIndex s < 0 ->
  deleteImage_begin answer s = (Normal None, s).
Proof.
  intros H. unfold deleteImage_begin. unfold_js.
  destruct (Z.eqb_spec (len (images s)) 0) as [E0 | N0]; [reflexivity |].
  destruct (Z.ltb_spec (currentIndex s) 0) as [Hneg | Hpos]; [reflexivity | lia].
Qed.

Lemma deleteImage_begin_declined_run (s : State) :
  0 < len (images s) -> 0 <= currentIndex s ->
  deleteImage_begin false s =
  (Normal None, add_trace [Confirm "Delete this image?"] s).
Proof.
  intros H1 H2. destruct (deleteImage_guard_passes s H1 H2) as [G1 G2].
  unfold deleteImage_begin. unfold_js. rewrite G1, G2. reflexivity.
Qed.

Lemma deleteImage_begin_undefined_run (s : State) :
  0 < len (images s) -> 0 <= currentIndex s ->
  js_index (images s) (currentIndex s) = None ->
  deleteImage_begin true s =
  (Throw (undefined_read "public_id"), add_trace [Confirm "Delete this image?"] s).
Proof.
  intros H1 H2 E. destruct (deleteImage_guard_passes s H1 H2) as [G1 G2].
  unfold deleteImage_begin, read_at. unfold_js. rewrite G1, G2. cbn. rewrite E.
  reflexivity.
Qed.

Lemma deleteImage_begin_unencodable_run img (s : State) :
  js_index (images s) (currentIndex s) = Some img ->
  encodeURIComponent (public_id img) = None ->
  deleteImage_begin true s =
  (Normal None,
   add_trace [Confirm "Delete this image?";
              ConsoleError "Deletion error:" (mkError URIError "URI malformed");
              Alert "Failed to delete. Try again."] s).
Proof.
  intros E U. pose proof (js_index_some_range _ _ _ E) as R.
  destruct (deleteImage_guard_passes s) as [G1 G2]; [lia | lia |].
  unfold deleteImage_begin, read_at, add_trace. unfold_js. rewrite G1, G2.
  cbn -[encodeURIComponent]. rewrite E. cbn -[encodeURIComponent]. rewrite U.
  cbn. repeat rewrite <- app_assoc. reflexivity.
Qed.

Lemma deleteImage_begin_sent_run img u (s : State) :
  js_index (images s) (currentIndex s) = Some img ->
  encodeURIComponent (public_id img) = Some u ->
  deleteImage_begin true s =
  (Normal (Some (public_id img)),
   add_trace [Confirm "Delete this image?"; Fetch (DeleteImage (public_id img))] s).
Proof.
  intros E U. pose proof (js_index_some_range _ _ _ E) as R.
  destruct (deleteImage_guard_passes s) as [G1 G2]; [lia | lia |].
  unfold deleteImage_begin, read_at, add_trace. unfold_js. rewrite G1, G2.
  cbn -[encodeURIComponent]. rewrite E. cbn -[encodeURIComponent]. rewrite U.
  cbn. repeat rewrite <- app_assoc. reflexivity.
Qed.

(** *** The part after the await *)

Lemma deleteImage_resume_failure_run outcome e (s : State) :
  delete_failure outcome = Some e ->
  deleteImage_resume outcome s =
  (Normal tt,
   add_trace [ConsoleError "Deletion error:" e;
              Alert "Failed to delete. Try again."] s).
Proof.
  intros F. unfold deleteImage_resume, add_trace.
  destruct outcome as [e0 | [|] b]; cbn in F; inversion F; subst;
    unfold_js; cbn; repeat rewrite <- app_assoc; reflexivity.
Qed.

(** The state after [images.splice(currentIndex, 1)]. *)
Lemma deleteImage_resume_success_run b (s : State) :
  let s1 := mkState (splice1 (currentIndex s) (images s)) (currentIndex s)
              (page s) (trace s) in
  let i' := Z.min (currentIndex s) (len (images s1) - 1) in
  deleteImage_resume (Responded true b) s =
  if len (images s1) =? 0 then (Normal tt, displayed (hide_detail s1))
  else
    match js_index (images s1) i' with
    | Some img' => (Normal tt, displayed (shown i' img' s1))
    | None =>
        (Normal tt,
         add_trace [ConsoleError "Deletion error:" (undefined_read "url");
                    Alert "Failed to delete. Try again."]
           (mkState (images s1) i' (page s) (trace s)))
    end.
Proof.
  intros s1 i'.
  assert (Run : deleteImage_resume (Responded true b) s =
    try_catch
      ((if len (images s1) =? 0 then modify_page (with_detail_hidden true)
        else
          ci <- gets currentIndex ;;
          set_currentIndex (Z.min ci (len (images s1) - 1)) ;;
          ci <- gets currentIndex ;;
          showImage ci) ;;
       displayThumbnails)
      (fun error =>
         console_error "Deletion error:" error ;;
         alert "Failed to delete. Try again.") s1).
  { unfold deleteImage_resume. unfold_js. reflexivity. }
  rewrite Run. clear Run.
  destruct (Z.eqb_spec (len (images s1)) 0) as [Z0 | NZ].
  - unfold try_catch, bind at 1. unfold modify_page at 1, modify at 1.
    rewrite displayThumbnails_run. reflexivity.
  - unfold try_catch. unfold bind at 1. unfold bind at 1. unfold gets at 1.
    unfold bind at 1. unfold set_currentIndex at 1, modify at 1.
    unfold bind at 1. unfold gets at 1. cbn [currentIndex].
    change (Z.min (currentIndex s1) (len (images s1) - 1)) with i'.
    destruct (js_index (images s1) i') as [img' |] eqn:E'.
    + rewrite showImage_run with (img := img') by exact E'.
      rewrite displayThumbnails_run. reflexivity.
    + rewrite showImage_throws by exact E'. unfold_js.
      unfold add_trace. cbn. rewrite <- app_assoc. reflexivity.
Qed.

(** *** The run without another handler in between *)

Lemma deleteImage_guard_run answer outcome (s : State) :
  len (images s) = 0 \/ currentIndex s < 0 ->
  deleteImage answer outcome s = (Normal tt, s).
Proof.
  intros H. unfold deleteImage, bind.
  now rewrite deleteImage_begin_guard_run.
Qed.

Lemma deleteImage_declined_run outcome (s : State) :
  0 < len (images s) -> 0 <= currentIndex s ->
  deleteImage false outcome s = (Normal tt, add_trace [Confirm "Delete this image?"] s).
Proof.
  intros H1 H2. unfold deleteImage, bind.
  now rewrite deleteImage_begin_declined_run.
Qed.

Lemma deleteImage_undefined_run outcome (s : State) :
  0 < len (images s) -> 0 <= currentIndex s ->
  js_index (images s) (currentIndex s) = None ->
  deleteImage true outcome s =
  (Throw (undefined_read "public_id"), add_trace [Confirm "Delete this image?"] s).
Proof.
  intros H1 H2 E. unfold deleteImage, bind.
  now rewrite deleteImage_begin_undefined_run.
Qed.

Lemma deleteImage_unencodable_run outcome img (s : State) :
  js_index (images s) (currentIndex s) = Some img ->
  encodeURIComponent (public_id img) = None ->
  deleteImage true outcome s =
  (Normal tt,
   add_trace [Confirm "Delete this image?";
              ConsoleError "Deletion error:" (mkError URIError "URI malformed");
              Alert "Failed to delete. Try again."] s).
Proof.
  intros E U. unfold deleteImage, bind.
  now rewrite (deleteImage_begin_unencodable_run img s E U).
Qed.

Lemma deleteImage_failure_run outcome e img u (s : State) :
  js_index (images s) (currentIndex s) = Some img ->
  encodeURIComponent (public_id img) = Some u ->
  delete_failure outcome = Some e ->
  deleteImage true outcome s =
  (Normal tt,
   add_trace [Confirm "Delete this image?"; Fetch (DeleteImage (public_id img));
              ConsoleError "Deletion error:" e; Alert "Failed to delete. Try again."] s).
Proof.
  intros E U F. unfold deleteImage, bind.
  rewrite (deleteImage_begin_sent_run img u s E U).
  rewrite (deleteImage_resume_failure_run outcome e _ F).
  now rewrite add_trace_add_trace.
Qed.

Lemma deleteImage_success_run b img u (s : State) :
  js_index (images s) (currentIndex s) = Some img ->
  encodeURIComponent (public_id img) = Some u ->
  let s1 := spliced img s in
  let i' := Z.min (currentIndex s) (len (images s1) - 1) in
  if len (images s1) =? 0 then
    deleteImage true (Responded true b) s = (Normal tt, displayed (hide_detail s1))
  else
    exists img',
      js_index (images s1) i' = Some img' /\
      deleteImage true (Responded true b) s = (Normal tt, displayed (shown i' img' s1)).
Proof.
  intros E U s1 i'. pose proof (js_index_some_range _ _ _ E) as R.
  assert (L1 : len (images s1) = len (images s) - 1)
    by (unfold s1, spliced; cbn [images]; now apply len_splice1).
  assert (Run : deleteImage true (Responded true b) s =
                deleteImage_resume (Responded true b)
                  (add_trace [Confirm "Delete this image?";
                              Fetch (DeleteImage (public_id img))] s)).
  { unfold deleteImage, bind.
    now rewrite (deleteImage_begin_sent_run img u s E U). }
  rewrite Run, deleteImage_resume_success_run. cbv zeta.
  cbn [add_trace images currentIndex page trace].
  change (mkState (splice1 (currentIndex s) (images s)) (currentIndex s) (page s)
            (trace s ++ [Confirm "Delete this image?";
                         Fetch (DeleteImage (public_id img))]))
    with s1.
  change (splice1 (currentIndex s) (images s)) with (images s1).
  fold i'.
  destruct (Z.eqb_spec (len (images s1)) 0) as [Z0 | NZ]; [reflexivity |].
  destruct (js_index_in_range (images s1) i') as [img' E']; [unfold i'; lia |].
  exists img'. split; [exact E' |]. now rewrite E'.
Qed.

(** ** Deleting the current image *)

Lemma last_effect_add_trace (es : list Effect) (e : Effect) (s : State) :
  last_effect (add_trace (es ++ [e]) s) = Some e.
Proof.
  unfold last_effect, add_trace. cbn [trace].
  rewrite app_assoc, rev_app_distr. reflexivity.
Qed.

(** When no other handler runs while the request is in flight: on a list
    of length [n >= 1] with a valid [currentIndex = i] whose record has an
    encodable [public_id], a confirmed [deleteImage] whose request succeeds
    removes exactly the element at [i] (the list has length [n - 1]
    afterwards); when elements remain, [currentIndex] becomes
    [min i (n - 2)] and the detail pane is visible and shows the record at
    that index; when none remain, the detail pane is hidden. *)
Lemma deleteImage_success_removes_and_clamps
    (b : unit) (s : State) (i n : Z) (img0 : ImageRecord) (u : string) :
  n = len (images s) ->
  i = currentIndex s ->
  0 <= i < n ->
  js_index (images s) i = Some img0 ->
  encodeURIComponent (public_id img0) = Some u ->
  exists s',
    deleteImage true (Responded true b) s = (Normal tt, s') /\
    images s' = firstn (Z.to_nat i) (images s) ++ skipn (S (Z.to_nat i)) (images s) /\
    len (images s') = n - 1 /\
    (n - 1 > 0 ->
       currentIndex s' = Z.min i (n - 2) /\
       detail_hidden (page s') = false /\
       exists img,
         js_index (images s') (currentIndex s') = Some img /\
         large_src (page s') = url img) /\
    (n - 1 = 0 -> detail_hidden (page s') = true).
Proof.
  intros Hn Hi R E U. subst n i. rename img0 into img.
  pose proof (deleteImage_success_run b img u s E U) as Run. cbv zeta in Run.
  assert (L1 : len (images (spliced img s)) = len (images s) - 1)
    by (unfold spliced; cbn [images]; now apply len_splice1).
  assert (I1 : images (spliced img s) =
               firstn (Z.to_nat (currentIndex s)) (images s) ++
               skipn (S (Z.to_nat (currentIndex s))) (images s)).
  { unfold spliced. cbn [images]. rewrite splice1_in_range by exact R.
    apply remove_at_firstn_skipn. }
  destruct (Z.eqb_spec (len (images (spliced img s))) 0) as [Z0 | NZ].
  - exists (displayed (hide_detail (spliced img s))).
    split; [exact Run |]. cbn [images displayed hide_detail].
    split; [exact I1 |]. split; [exact L1 |].
    split; [intros Hpos; lia | intros _; reflexivity].
  - destruct Run as [img' [E' Run]].
    set (i' := Z.min (currentIndex s) (len (images (spliced img s)) - 1)) in *.
    exists (displayed (shown i' img' (spliced img s))).
    split; [exact Run |]. cbn [images displayed shown currentIndex].
    split; [exact I1 |]. split; [exact L1 |].
    split; [intros _ | intros Hz; lia].
    split; [unfold i'; rewrite L1; f_equal; lia |].
    split; [reflexivity |].
    exists img'. split; [exact E' | reflexivity].
Qed.

Lemma deleteImage_success_removes_and_clamps_witness :
  exists s',
    deleteImage true (Responded true tt)
      (mkState [imgA; imgB; imgC] 2 blank_page []) = (Normal tt, s') /\
    images s' = [imgA; imgB] /\
    len (images s') = 2 /\
    (3 - 1 > 0 ->
       currentIndex s' = 1 /\
       detail_hidden (page s') = false /\
       exists img,
         js_index (images s') (currentIndex s') = Some img /\
         large_src (page s') = url img) /\
    (3 - 1 = 0 -> detail_hidden (page s') = true).
Proof.
  apply (deleteImage_success_removes_and_clamps tt
           (mkState [imgA; imgB; imgC] 2 blank_page []) 2 3 imgC "c");
    [reflexivity | reflexivity | lia | reflexivity | reflexivity].
Defined.

(** C4.  From the list [[A, B, C]] with [currentIndex = 2], a confirmed
    [deleteImage] sends the DELETE for [c] and awaits the response.  If
    ArrowLeft is pressed meanwhile, the successful response makes the
    script remove [B]: the list ends as [[A, C]], not as the old list
    without its element at index 2.  If a listing of four images arrives
    meanwhile, the script removes the new fourth image and the list still
    has three elements, [C] among them. *)
Theorem deleteImage_interleaved_removes_other_record :
  let s0 := mkState [imgA; imgB; imgC] 2 blank_page [] in
  let s1 := snd (deleteImage_begin true s0) in
  let key := snd (keydown "ArrowLeft" false false (Responded true tt) s1) in
  let listed :=
    snd (fetchImages (Responded true (Parsed [imgA; imgB; imgC; imgD])) s1) in
  fst (deleteImage_begin true s0) = Normal (Some "c") /\
  requests (trace s1) = [DeleteImage "c"] /\
  images s1 = [imgA; imgB; imgC] /\ currentIndex s1 = 2 /\
  fst (deleteImage_resume (Responded true tt) key) = Normal tt /\
  images (snd (deleteImage_resume (Responded true tt) key)) = [imgA; imgC] /\
  images (snd (deleteImage_resume (Responded true tt) key)) <>
    firstn 2 (images s0) ++ skipn 3 (images s0) /\
  currentIndex (snd (deleteImage_resume (Responded true tt) key)) = 1 /\
  fst (deleteImage_resume (Responded true tt) listed) = Normal tt /\
  images (snd (deleteImage_resume (Responded true tt) listed)) =
    [imgA; imgB; imgC] /\
  currentIndex (snd (deleteImage_resume (Responded true tt) listed)) = 2.
Proof. cbv zeta. repeat split; discriminate. Qed.

(** C5.  With a non-empty list and a valid [currentIndex], a confirmed
    [deleteImage] whose request is rejected or comes back with a non-ok
    status leaves [images], [currentIndex] and the page as they were, and
    ends by alerting "Failed to delete. Try again.". *)
Theorem deleteImage_failure_keeps_state (outcome : Fetched unit) (s : State) :
  0 < len (images s) ->
  0 <= currentIndex s < len (images s) ->
  remote_failed outcome = true ->
  exists s',
    deleteImage true outcome s = (Normal tt, s') /\
    images s' = images s /\
    currentIndex s' = currentIndex s /\
    page s' = page s /\
    last_effect s' = Some (Alert "Failed to delete. Try again.").
Proof.
  intros _ R F.
  destruct (js_index_in_range (images s) (currentIndex s) R) as [img E].
  assert (exists e, delete_failure outcome = Some e) as [e De].
  { destruct outcome as [e0 | [|] b0]; cbn in *; eauto; discriminate. }
  destruct (encodeURIComponent (public_id img)) as [u |] eqn:U.
  - eexists. split; [apply (deleteImage_failure_run outcome e img u s E U De) |].
    repeat split.
    apply (last_effect_add_trace
             [Confirm "Delete this image?"; Fetch (DeleteImage (public_id img));
              ConsoleError "Deletion error:" e]).
  - eexists. split; [apply (deleteImage_unencodable_run outcome img s E U) |].
    repeat split.
    apply (last_effect_add_trace
             [Confirm "Delete this image?";
              ConsoleError "Deletion error:" (mkError URIError "URI malformed")]).
Qed.

Lemma deleteImage_failure_keeps_state_witness :
  exists s',
    deleteImage true (Responded false tt)
      (mkState [imgA; imgB; imgC] 2 blank_page []) = (Normal tt, s') /\
    images s' = [imgA; imgB; imgC] /\
    currentIndex s' = 2 /\
    page s' = blank_page /\
    last_effect s' = Some (Alert "Failed to delete. Try again.").
Proof.
  apply (deleteImage_failure_keeps_state (Responded false tt)
           (mkState [imgA; imgB; imgC] 2 blank_page []));
    [reflexivity | unfold len; simpl; lia | reflexivity].
Defined.

(** C10.  The guard of [deleteImage] tests the list for emptiness and
    [currentIndex] for being negative, and nothing else.  With
    [0 < images.length <= currentIndex] the guard lets a confirmed call
    through, and [images[currentIndex].public_id], read before the [try]
    block, throws a TypeError that leaves the handler: no request goes out
    and no alert is shown, the confirmation prompt being the one effect. *)
Theorem deleteImage_dangling_index_escapes (outcome : Fetched unit) (s : State) :
  0 < len (images s) <= currentIndex s ->
  deleteImage true outcome s =
  (Throw (undefined_read "public_id"), add_trace [Confirm "Delete this image?"] s).
Proof.
  intros H. apply deleteImage_undefined_run; try lia.
  apply js_index_out_of_range. lia.
Qed.

Lemma deleteImage_dangling_index_escapes_witness :
  deleteImage true (Responded true tt) (mkState [imgA] 2 blank_page []) =
  (Throw (undefined_read "public_id"),
   add_trace [Confirm "Delete this image?"] (mkState [imgA] 2 blank_page [])).
Proof.
  apply (deleteImage_dangling_index_escapes (Responded true tt)
           (mkState [imgA] 2 blank_page [])).
  unfold len; simpl; lia.
Defined.

(** ** Fetching the list *)

(** C6.  When the listing request succeeds with a list of length [n + 1]
    while the script holds a list of length [n], [fetchImages] installs the
    new list and sets [currentIndex] to [n], its last index. *)
Theorem fetchImages_append_selects_last
    (newImages : list ImageRecord) (s : State) (n : Z) :
  len (images s) = n ->
  len newImages = n + 1 ->
  exists s',
    fetchImages (Responded true (Parsed newImages)) s = (Normal tt, s') /\
    images s' = newImages /\
    currentIndex s' = n.
Proof.
  intros Hn Hnew. pose proof (len_nonneg (images s)) as Hpos.
  rewrite fetchImages_parsed_run. cbv zeta. unfold reconciled.
  destruct (Z.gtb_spec (len newImages) (len (images s))) as [_ | Hle]; [| lia].
  assert (T : truthy (len newImages) = true).
  { unfold truthy. destruct (Z.eqb_spec (len newImages) 0); [lia | reflexivity]. }
  rewrite T. cbn [currentIndex displayed].
  destruct (js_index_in_range newImages (len newImages - 1)) as [img E]; [lia |].
  rewrite E. eexists. split; [reflexivity |].
  cbn [images currentIndex shown displayed]. split; [reflexivity | lia].
Qed.

Lemma fetchImages_append_selects_last_witness :
  exists s',
    fetchImages (Responded true (Parsed [imgA; imgB; imgC]))
      (mkState [imgA; imgB] 0 blank_page []) = (Normal tt, s') /\
    images s' = [imgA; imgB; imgC] /\
    currentIndex s' = 2.
Proof.
  apply (fetchImages_append_selects_last [imgA; imgB; imgC]
           (mkState [imgA; imgB] 0 blank_page []) 2);
    reflexivity.
Defined.

(** ** Stepping *)

(** C7.  With a non-empty list: the previous button and ArrowLeft change
    nothing when [currentIndex <= 0] and run [showImage(currentIndex - 1)]
    otherwise; the next button and ArrowRight change nothing when
    [currentIndex >= images.length - 1], at the last index or beyond it, and
    run [showImage(currentIndex + 1)] otherwise. *)
Theorem step_noop_outside_else_showImage
    (ctrlKey answer : bool) (outcome : Fetched unit) (s : State) :
  0 < len (images s) ->
  (currentIndex s <= 0 ->
     prevBtn_click s = (Normal tt, s) /\
     keydown "ArrowLeft" ctrlKey answer outcome s = (Normal tt, s)) /\
  (len (images s) - 1 <= currentIndex s ->
     nextBtn_click s = (Normal tt, s) /\
     keydown "ArrowRight" ctrlKey answer outcome s = (Normal tt, s)) /\
  (0 < currentIndex s ->
     prevBtn_click s = showImage (currentIndex s - 1) s /\
     keydown "ArrowLeft" ctrlKey answer outcome s = showImage (currentIndex s - 1) s) /\
  (currentIndex s < len (images s) - 1 ->
     nextBtn_click s = showImage (currentIndex s + 1) s /\
     keydown "ArrowRight" ctrlKey answer outcome s = showImage (currentIndex s + 1) s).
Proof.
  intros Hne.
  unfold prevBtn_click, nextBtn_click, keydown.
  unfold bind, gets, ret. rewrite (truthy_len_positive (images s) Hne).
  cbn [negb String.eqb Ascii.eqb Bool.eqb].
  split; [| split; [| split]]; intros H; split.
  all: try (destruct (Z.gtb_spec (currentIndex s) 0); [lia || reflexivity | lia || reflexivity]).
  all: destruct (Z.ltb_spec (currentIndex s) (len (images s) - 1));
    [lia || reflexivity | lia || reflexivity].
Qed.

Lemma step_noop_outside_else_showImage_witness :
  (currentIndex gallery_dangling <= 0 ->
     prevBtn_click gallery_dangling = (Normal tt, gallery_dangling) /\
     keydown "ArrowLeft" false true (Responded true tt) gallery_dangling =
     (Normal tt, gallery_dangling)) /\
  (len (images gallery_dangling) - 1 <= currentIndex gallery_dangling ->
     nextBtn_click gallery_dangling = (Normal tt, gallery_dangling) /\
     keydown "ArrowRight" false true (Responded true tt) gallery_dangling =
     (Normal tt, gallery_dangling)) /\
  (0 < currentIndex gallery_dangling ->
     prevBtn_click gallery_dangling =
     showImage (currentIndex gallery_dangling - 1) gallery_dangling /\
     keydown "ArrowLeft" false true (Responded true tt) gallery_dangling =
     showImage (currentIndex gallery_dangling - 1) gallery_dangling) /\
  (currentIndex gallery_dangling < len (images gallery_dangling) - 1 ->
     nextBtn_click gallery_dangling =
     showImage (currentIndex gallery_dangling + 1) gallery_dangling /\
     keydown "ArrowRight" false true (Responded true tt) gallery_dangling =
     showImage (currentIndex gallery_dangling + 1) gallery_dangling).
Proof.
  apply (step_noop_outside_else_showImage false true (Responded true tt)
           gallery_dangling).
  reflexivity.
Defined.

(** With the list [[A]] and [currentIndex = 2], which is not the last
    index, the next button and ArrowRight change nothing, whereas
    [showImage(currentIndex + 1)] assigns [currentIndex = 3] and throws. *)
Lemma step_next_beyond_last_counterexample :
  0 < len (images gallery_dangling) /\
  currentIndex gallery_dangling <> len (images gallery_dangling) - 1 /\
  nextBtn_click gallery_dangling = (Normal tt, gallery_dangling) /\
  keydown "ArrowRight" false true (Responded true tt) gallery_dangling =
    (Normal tt, gallery_dangling) /\
  showImage (currentIndex gallery_dangling + 1) gallery_dangling =
    (Throw (undefined_read "url"), mkState [imgA] 3 blank_page []) /\
  nextBtn_click gallery_dangling <>
    showImage (currentIndex gallery_dangling + 1) gallery_dangling.
Proof.
  split; [reflexivity |]. split; [discriminate |].
  split; [reflexivity |]. split; [reflexivity |]. split; [reflexivity |].
  discriminate.
Qed.

(** ** Selecting *)

(** C9.  On a reel that has one thumbnail per image, [showImage(i)] with
    [0 <= i < images.length] returns normally, sets [currentIndex] to [i],
    and afterwards the thumbnails carrying the 'selected' class are exactly
    the one at position [i]. *)
Theorem showImage_marks_exactly_one (i : Z) (s : State) :
  len (thumbs (page s)) = len (images s) ->
  0 <= i < len (images s) ->
  exists s',
    showImage i s = (Normal tt, s') /\
    currentIndex s' = i /\
    selected_positions (thumbs (page s')) = [i].
Proof.
  intros Hreel R.
  destruct (js_index_in_range (images s) i R) as [img E].
  exists (shown i img s). split; [now apply showImage_run |].
  split; [reflexivity |].
  cbn [shown page thumbs]. apply selected_highlighted. lia.
Qed.

Lemma showImage_marks_exactly_one_witness :
  exists s',
    showImage 1 (displayed (mkState [imgA; imgB; imgC] 0 blank_page [])) = (Normal tt, s') /\
    currentIndex s' = 1 /\
    selected_positions (thumbs (page s')) = [1].
Proof.
  apply (showImage_marks_exactly_one 1
           (displayed (mkState [imgA; imgB; imgC] 0 blank_page [])));
    [reflexivity | unfold len; simpl; lia].
Defined.

(** [displayThumbnails] leaves one thumbnail per image, in the order of the
    list, and marks the one at [currentIndex]. *)
Lemma displayThumbnails_one_per_image (s : State) :
  exists s',
    displayThumbnails s = (Normal tt, s') /\
    len (thumbs (page s')) = len (images s') /\
    map t_src (thumbs (page s')) = map url (images s').
Proof.
  exists (displayed s). split; [apply displayThumbnails_run |].
  cbn [displayed page images with_reel thumbs]. split; [apply len_rendered |].
  unfold rendered. generalize 0. induction (images s) as [| img rest IH]; intros k.
  - reflexivity.
  - cbn. now rewrite IH.
Qed.

(** ** Uploading *)

Lemma requests_app (tr1 tr2 : list Effect) :
  requests (tr1 ++ tr2) = requests tr1 ++ requests tr2.
Proof.
  induction tr1 as [| e rest IH]; [reflexivity |].
  destruct e; cbn; now rewrite IH.
Qed.

(** C8.  With no file selected, [handleUpload] alerts "Please select a file
    to upload" and returns: no request is issued, and [images],
    [currentIndex] and the page are as before. *)
Theorem handleUpload_without_file
    (window : Scope) (outcome : Fetched (Json (option string))) (s : State) :
  file_input (page s) = [] ->
  exists s',
    handleUpload window outcome s = (Normal tt, s') /\
    s' = add_trace [PreventDefault; Alert "Please select a file to upload"] s /\
    requests (trace s') = requests (trace s) /\
    images s' = images s /\ currentIndex s' = currentIndex s /\ page s' = page s.
Proof.
  intros H. eexists. split.
  - unfold handleUpload. unfold_js. rewrite H. unfold_js.
    rewrite <- app_assoc. reflexivity.
  - split; [reflexivity |]. cbn [trace images currentIndex page].
    rewrite requests_app. cbn. rewrite app_nil_r. repeat split.
Qed.

Lemma handleUpload_without_file_witness :
  exists s',
    handleUpload (named_access script_ids) (Responded true (Parsed None))
      (mkState [imgA] 0 blank_page []) = (Normal tt, s') /\
    s' = add_trace [PreventDefault; Alert "Please select a file to upload"]
           (mkState [imgA] 0 blank_page []) /\
    requests (trace s') = [] /\
    images s' = [imgA] /\ currentIndex s' = 0 /\ page s' = blank_page.
Proof.
  apply (handleUpload_without_file (named_access script_ids)
           (Responded true (Parsed None)) (mkState [imgA] 0 blank_page [])).
  reflexivity.
Defined.

(** Inside the [try] block [uploadBtn] is the block's own constant. *)
Lemma resolve_uploadBtn_in_try (window : Scope) :
  resolve [scope_try; scope_handleUpload; scope_main; window] "uploadBtn" =
  Some (BElem "upload-btn").
Proof. reflexivity. Qed.

(** Inside the [finally] block the name is looked up on the global object. *)
Lemma resolve_uploadBtn_in_finally (window : Scope) :
  resolve [scope_finally; scope_handleUpload; scope_main; window] "uploadBtn" =
  lookup window "uploadBtn".
Proof. cbn. destruct (lookup window "uploadBtn"); reflexivity. Qed.

(** Named access reaches an element under its own id only. *)
Lemma lookup_named_access (ids : list string) (x : string) (b : Binding) :
  lookup (named_access ids) x = Some b -> b = BElem x.
Proof.
  induction ids as [| id rest IH]; cbn; [discriminate |].
  destruct (String.eqb_spec x id) as [-> | _]; [| exact IH].
  now intros [= <-].
Qed.

Lemma lookup_script_ids_uploadBtn :
  lookup (named_access script_ids) "uploadBtn" = None.
Proof. reflexivity. Qed.

(** With a file selected and no global [uploadBtn], every run of
    [handleUpload] ends in the ReferenceError of its [finally] block, the
    button still disabled and labelled "Uploading...". *)
Lemma handleUpload_never_releases
    (window : Scope) (outcome : Fetched (Json (option string)))
    (file : string) (rest : list string) (s : State) :
  lookup window "uploadBtn" = None ->
  file_input (page s) = file :: rest ->
  exists s',
    handleUpload window outcome s =
      (Throw (mkError ReferenceError "uploadBtn is not defined"), s') /\
    upload_disabled (page s') = true /\
    upload_text (page s') = "Uploading...".
Proof.
  intros W F. unfold handleUpload.
  unfold bind at 1. unfold emit at 1, modify at 1.
  unfold bind at 1. unfold gets at 1. cbn [page]. rewrite F. cbv zeta.
  unfold try_catch_finally, assign_on.
  rewrite resolve_uploadBtn_in_try, resolve_uploadBtn_in_finally, W.
  destruct outcome as [e | [|] [err | e]]; unfold_js; cbn;
    eexists; (split; [reflexivity | split; reflexivity]).
Qed.

(** X25.  Whatever ids the page gives its elements, named access cannot bind
    [uploadBtn] to the element whose id is [upload-btn]: the button stays
    disabled on every run with a file selected. *)
Lemma handleUpload_named_access_never_releases
    (ids : list string) (outcome : Fetched (Json (option string)))
    (file : string) (rest : list string) (s : State) :
  file_input (page s) = file :: rest ->
  exists c s',
    handleUpload (named_access ids) outcome s = (c, s') /\
    upload_disabled (page s') = true /\
    upload_text (page s') = "Uploading...".
Proof.
  intros F.
  destruct (lookup (named_access ids) "uploadBtn") as [b |] eqn:W.
  - pose proof (lookup_named_access _ _ _ W) as Hb. subst b.
    unfold handleUpload.
    unfold bind at 1. unfold emit at 1, modify at 1.
    unfold bind at 1. unfold gets at 1. cbn [page]. rewrite F. cbv zeta.
    unfold try_catch_finally, assign_on.
    rewrite resolve_uploadBtn_in_try, resolve_uploadBtn_in_finally, W.
    destruct outcome as [e | [|] [err | e]]; unfold_js; cbn;
      do 2 eexists; (split; [reflexivity | split; reflexivity]).
  - destruct (handleUpload_never_releases (named_access ids) outcome file rest s W F)
      as [s' [Run [D T]]].
    eauto.
Qed.

(** C2.  On a page whose global names are the ids the script looks up,
    with a file selected and the button enabled: when the upload succeeds,
    and likewise when the server refuses it, [handleUpload] disables the
    button and labels it "Uploading...", and its [finally] block, where the
    constant [uploadBtn] of the [try] block is out of scope, throws a
    ReferenceError before it re-enables anything: the button is left
    disabled with the busy label. *)
Theorem handleUpload_leaves_button_disabled :
  upload_disabled (page gallery_with_file) = false /\
  (let r := handleUpload (named_access script_ids) (Responded true (Parsed None))
              gallery_with_file in
   fst r = Throw (mkError ReferenceError "uploadBtn is not defined") /\
   upload_disabled (page (snd r)) = true /\
   upload_text (page (snd r)) = "Uploading...") /\
  (let r := handleUpload (named_access script_ids)
              (Responded false (Parsed (Some "File too large")))
              gallery_with_file in
   fst r = Throw (mkError ReferenceError "uploadBtn is not defined") /\
   upload_disabled (page (snd r)) = true /\
   upload_text (page (snd r)) = "Uploading..." /\
   In (Alert "Failed to upload: File too large") (trace (snd r))).
Proof.
  split; [reflexivity |]. split.
  - cbv zeta. repeat split.
  - cbv zeta. repeat split. vm_compute. tauto.
Qed.

(** ** Replacing the list with a shorter one *)

Lemma gallery_ABC_selected :
  images gallery_ABC = [imgA; imgB; imgC] /\ currentIndex gallery_ABC = 2.
Proof. split; reflexivity. Qed.

(** X21.  When a successful listing is not empty, not longer than the list
    held and does not reach [currentIndex], the list is replaced,
    [currentIndex] is kept as it is, and rendering the detail pane throws
    into the [catch] block. *)
Lemma fetchImages_shorter_list_dangles (newImages : list ImageRecord) (s : State) :
  0 < len newImages <= len (images s) ->
  len newImages <= currentIndex s ->
  exists s',
    fetchImages (Responded true (Parsed newImages)) s = (Normal tt, s') /\
    images s' = newImages /\
    currentIndex s' = currentIndex s /\
    last_effect s' = Some (Alert "Failed to load images. Refresh page.").
Proof.
  intros Hlen Hci.
  rewrite fetchImages_parsed_run. cbv zeta. unfold reconciled.
  destruct (Z.gtb_spec (len newImages) (len (images s))) as [Hgt | _]; [lia |].
  assert (T : truthy (len newImages) = true).
  { unfold truthy. destruct (Z.eqb_spec (len newImages) 0); [lia | reflexivity]. }
  rewrite T. cbn [currentIndex displayed].
  rewrite js_index_out_of_range by lia.
  eexists. split; [reflexivity |]. repeat split.
  apply (last_effect_add_trace [ConsoleError "Fetch error:" (undefined_read "url")]).
Qed.

(** C1.  From the gallery of three images with the third selected, a
    successful listing of one image replaces the list and leaves
    [currentIndex] at 2, outside the new list. *)
Theorem fetchImages_shorter_list_index_out_of_range :
  let s' := snd (fetchImages (Responded true (Parsed [imgA])) gallery_ABC) in
  images s' = [imgA] /\
  currentIndex s' = 2 /\
  ~ (0 <= currentIndex s' < len (images s')).
Proof.
  cbv zeta. split; [reflexivity |]. split; [reflexivity |].
  vm_compute. intros [_ H]. discriminate H.
Qed.

(** C3.  From the same gallery, the same listing ends in the failure
    notice "Failed to load images. Refresh page." although the list held has
    already been replaced. *)
Theorem fetchImages_failure_notice_after_replacement :
  let r := fetchImages (Responded true (Parsed [imgA])) gallery_ABC in
  fst r = Normal tt /\
  last_effect (snd r) = Some (Alert "Failed to load images. Refresh page.") /\
  images gallery_ABC = [imgA; imgB; imgC] /\
  images (snd r) = [imgA].
Proof. cbv zeta. repeat split. Qed.

(** X17.  When the remote call itself fails (rejected request, non-ok status
    or unreadable body), [fetchImages] shows the failure notice and leaves
    [images], [currentIndex] and the page as they were. *)
Lemma fetchImages_remote_failure_keeps_state
    (outcome : Fetched (Json (list ImageRecord))) (e : Error) (s : State) :
  listing_failure outcome = Some e ->
  exists s',
    fetchImages outcome s = (Normal tt, s') /\
    images s' = images s /\ currentIndex s' = currentIndex s /\ page s' = page s /\
    last_effect s' = Some (Alert "Failed to load images. Refresh page.").
Proof.
  intros F. eexists. split; [apply (fetchImages_failure_run outcome e s F) |].
  repeat split.
  apply (last_effect_add_trace [Fetch GetImages; ConsoleError "Fetch error:" e]).
Qed.

(** ** What all reachable states have in common *)

Create HintDb gallery.

Lemma same_gallery_refl (s : State) : same_gallery s s.
Proof. repeat split. Qed.

Lemma same_gallery_trans (s1 s2 s3 : State) :
  same_gallery s1 s2 -> same_gallery s2 s3 -> same_gallery s1 s3.
Proof.
  intros (A1 & B1 & C1) (A2 & B2 & C2). repeat split; congruence.
Qed.

Lemma keeps_ret {A : Type} (a : A) : keeps_gallery (ret a).
Proof. intros s. apply same_gallery_refl. Qed.

Lemma keeps_throw {A : Type} (e : Error) : keeps_gallery (@throw A e).
Proof. intros s. apply same_gallery_refl. Qed.

Lemma keeps_gets {A : Type} (f : State -> A) : keeps_gallery (gets f).
Proof. intros s. apply same_gallery_refl. Qed.

Lemma keeps_emit (e : Effect) : keeps_gallery (emit e).
Proof. intros s. repeat split. Qed.

Lemma keeps_modify_page (f : Page -> Page) :
  (forall p, thumbs (f p) = thumbs p) -> keeps_gallery (modify_page f).
Proof. intros H s. repeat split. cbn. apply H. Qed.

Lemma keeps_bind {A B : Type} (m : M A) (k : A -> M B) :
  keeps_gallery m -> (forall a, keeps_gallery (k a)) -> keeps_gallery (bind m k).
Proof.
  intros Hm Hk s. unfold bind. specialize (Hm s).
  destruct (m s) as [[a | e] s1]; cbn [snd] in *; [| exact Hm].
  eapply same_gallery_trans; [exact Hm | apply Hk].
Qed.

Lemma keeps_try_catch {A : Type} (body : M A) (handler : Error -> M A) :
  keeps_gallery body -> (forall e, keeps_gallery (handler e)) ->
  keeps_gallery (try_catch body handler).
Proof.
  intros Hb Hh s. unfold try_catch. specialize (Hb s).
  destruct (body s) as [[a | e] s1]; cbn [snd] in *; [exact Hb |].
  eapply same_gallery_trans; [exact Hb | apply Hh].
Qed.

Lemma keeps_try_catch_finally {A : Type}
    (body : M A) (handler : Error -> M A) (cleanup : M unit) :
  keeps_gallery body -> (forall e, keeps_gallery (handler e)) ->
  keeps_gallery cleanup ->
  keeps_gallery (try_catch_finally body handler cleanup).
Proof.
  intros Hb Hh Hc s. unfold try_catch_finally.
  pose proof (keeps_try_catch body handler Hb Hh s) as H1.
  destruct (try_catch body handler s) as [c s1]. cbn [snd] in H1.
  specialize (Hc s1).
  destruct (cleanup s1) as [[u | e] s2]; cbn [snd] in *;
    eapply same_gallery_trans; eassumption.
Qed.

Lemma thumbs_set_disabled (v : bool) (id : string) (p : Page) :
  thumbs (set_disabled v id p) = thumbs p.
Proof.
  unfold set_disabled.
  destruct (String.eqb id "upload-btn"); [reflexivity |].
  destruct (String.eqb id "prev"); [reflexivity |].
  destruct (String.eqb id "next"); reflexivity.
Qed.

Lemma thumbs_set_textContent (v : string) (id : string) (p : Page) :
  thumbs (set_textContent v id p) = thumbs p.
Proof.
  unfold set_textContent. destruct (String.eqb id "upload-btn"); reflexivity.
Qed.

Lemma keeps_assign_on (chain : list Scope) (x : string) (write : string -> Page -> Page) :
  (forall id p, thumbs (write id p) = thumbs p) ->
  keeps_gallery (assign_on chain x write).
Proof.
  intros H. unfold assign_on.
  destruct (resolve chain x) as [[id |] |].
  - apply keeps_modify_page. apply H.
  - apply keeps_ret.
  - apply keeps_throw.
Qed.

Lemma keeps_fetch {B : Type} (r : Request) (outcome : Fetched B) :
  keeps_gallery (fetch r outcome).
Proof.
  unfold fetch. apply keeps_bind; [apply keeps_emit |].
  intros _. destruct outcome; [apply keeps_throw | apply keeps_ret].
Qed.

Lemma keeps_json {A : Type} (body : Json A) : keeps_gallery (json body).
Proof. destruct body; [apply keeps_ret | apply keeps_throw]. Qed.

#[local] Hint Resolve keeps_ret keeps_throw keeps_gets keeps_emit keeps_fetch
  keeps_json : gallery.

Lemma keeps_handleUpload (window : Scope) (outcome : Fetched (Json (option string))) :
  keeps_gallery (handleUpload window outcome).
Proof.
  unfold handleUpload.
  apply keeps_bind; [auto with gallery |]. intros _.
  apply keeps_bind; [auto with gallery |]. intros files.
  destruct files as [| file rest]; [apply keeps_emit |].
  cbv zeta. apply keeps_try_catch_finally.
  - apply keeps_bind; [apply keeps_assign_on, thumbs_set_disabled |]. intros _.
    apply keeps_bind; [apply keeps_assign_on, thumbs_set_textContent |]. intros _.
    apply keeps_bind; [auto with gallery |]. intros response.
    apply keeps_bind.
    + destruct (negb (fst response)); [| auto with gallery].
      apply keeps_bind; auto with gallery.
    + intros _. apply keeps_bind; [now apply keeps_modify_page |].
      intros _. apply keeps_emit.
  - intros e. apply keeps_bind; [apply keeps_emit |]. intros _. apply keeps_emit.
  - apply keeps_bind; [apply keeps_assign_on, thumbs_set_disabled |]. intros _.
    apply keeps_assign_on, thumbs_set_textContent.
Qed.

Lemma reel_matches_same_gallery (s s' : State) :
  same_gallery s s' -> reel_matches s -> reel_matches s'.
Proof.
  intros (Hi & Hc & Ht) (Hpos & c & Hr). split; [lia |].
  exists c. now rewrite Ht, Hi.
Qed.

Lemma reel_matches_add_trace (es : list Effect) (s : State) :
  reel_matches s -> reel_matches (add_trace es s).
Proof. apply reel_matches_same_gallery. repeat split. Qed.

Lemma reel_matches_displayed (s : State) :
  0 <= currentIndex s -> reel_matches (displayed s).
Proof. intros H. split; [exact H |]. now exists (currentIndex s). Qed.

Lemma reel_matches_hide_detail (s : State) :
  reel_matches s -> reel_matches (hide_detail s).
Proof. apply reel_matches_same_gallery. repeat split. Qed.

Lemma reel_matches_shown (i : Z) (img : ImageRecord) (s : State) :
  0 <= i -> reel_matches s -> reel_matches (shown i img s).
Proof.
  intros Hi (_ & c & Hr). split; [exact Hi |].
  exists i. cbn [shown page thumbs images]. rewrite Hr. apply highlighted_rendered.
Qed.

Lemma reel_matches_showImage (i : Z) (s : State) :
  0 <= i -> reel_matches s -> reel_matches (snd (showImage i s)).
Proof.
  intros Hi Inv. destruct (js_index (images s) i) as [img |] eqn:E.
  - rewrite showImage_run with (img := img) by exact E.
    now apply reel_matches_shown.
  - rewrite showImage_throws by exact E. cbn [snd].
    destruct Inv as (_ & c & Hr). split; [exact Hi | now exists c].
Qed.

Lemma reel_matches_fetchImages outcome (s : State) :
  reel_matches s -> reel_matches (snd (fetchImages outcome s)).
Proof.
  intros Inv.
  destruct (listing_failure outcome) as [e |] eqn:F.
  - rewrite fetchImages_failure_run with (e := e) by exact F.
    now apply reel_matches_add_trace.
  - destruct outcome as [e0 | [|] [newImages | e0]]; try discriminate F.
    rewrite fetchImages_parsed_run. cbv zeta.
    assert (R : reel_matches (reconciled newImages s)).
    { unfold reconciled. pose proof (len_nonneg (images s)).
      destruct Inv as (Hpos & _).
      destruct (Z.gtb_spec (len newImages) (len (images s)));
        apply reel_matches_displayed; cbn [currentIndex]; lia. }
    destruct (truthy (len newImages)).
    + destruct (js_index newImages (currentIndex (reconciled newImages s))) as [img |].
      * cbn [snd]. apply reel_matches_shown; [apply R | exact R].
      * cbn [snd]. now apply reel_matches_add_trace.
    + cbn [snd]. now apply reel_matches_hide_detail.
Qed.

Lemma reel_matches_deleteImage_begin answer (s : State) :
  reel_matches s -> reel_matches (snd (deleteImage_begin answer s)).
Proof.
  intros Inv. pose proof (len_nonneg (images s)) as Hlen.
  destruct (Z.eq_dec (len (images s)) 0) as [Z0 | NZ];
    [rewrite deleteImage_begin_guard_run by (now left); exact Inv |].
  destruct Inv as (Hpos & c & Hr).
  assert (Inv : reel_matches s) by (split; [exact Hpos | now exists c]).
  destruct answer;
    [| rewrite deleteImage_begin_declined_run by lia;
       now apply reel_matches_add_trace].
  destruct (js_index (images s) (currentIndex s)) as [img |] eqn:E;
    [| rewrite deleteImage_begin_undefined_run by (lia || exact E);
       now apply reel_matches_add_trace].
  destruct (encodeURIComponent (public_id img)) as [u |] eqn:U.
  - rewrite (deleteImage_begin_sent_run img u s E U).
    now apply reel_matches_add_trace.
  - rewrite (deleteImage_begin_unencodable_run img s E U).
    now apply reel_matches_add_trace.
Qed.

(** Whatever has happened while the request was in flight, the part after
    the [await] leaves the reel matching the list. *)
Lemma reel_matches_deleteImage_resume outcome (s : State) :
  reel_matches s -> reel_matches (snd (deleteImage_resume outcome s)).
Proof.
  intros Inv. destruct (delete_failure outcome) as [e |] eqn:F.
  - rewrite deleteImage_resume_failure_run with (e := e) by exact F.
    now apply reel_matches_add_trace.
  - destruct outcome as [e0 | [|] b]; try discriminate F.
    rewrite deleteImage_resume_success_run. cbv zeta.
    cbn [images currentIndex].
    destruct Inv as (Hpos & c & Hr).
    pose proof (len_nonneg (splice1 (currentIndex s) (images s))) as Hlen.
    destruct (Z.eqb_spec (len (splice1 (currentIndex s) (images s))) 0)
      as [Z0 | NZ].
    + cbn [snd]. apply reel_matches_displayed. exact Hpos.
    + destruct (js_index (splice1 (currentIndex s) (images s))
                  (Z.min (currentIndex s)
                     (len (splice1 (currentIndex s) (images s)) - 1)))
        as [img' |] eqn:E'.
      * cbn [snd]. apply reel_matches_displayed. cbn [shown currentIndex]. lia.
      * exfalso.
        destruct (js_index_in_range (splice1 (currentIndex s) (images s))
                    (Z.min (currentIndex s)
                       (len (splice1 (currentIndex s) (images s)) - 1)))
          as [x Ex]; [lia |]. congruence.
Qed.

Lemma reel_matches_deleteImage answer outcome (s : State) :
  reel_matches s -> reel_matches (snd (deleteImage answer outcome s)).
Proof.
  intros Inv. unfold deleteImage, bind.
  pose proof (reel_matches_deleteImage_begin answer s Inv) as B.
  destruct (deleteImage_begin answer s) as [[[id |] | e] s1]; cbn [snd] in *.
  - now apply reel_matches_deleteImage_resume.
  - exact B.
  - exact B.
Qed.

Lemma nth_error_mapi_from {A B : Type} (f : A -> Z -> B) (i : Z) (l : list A)
    (k : nat) (y : B) :
  nth_error (mapi_from f i l) k = Some y ->
  exists x, nth_error l k = Some x /\ y = f x (i + Z.of_nat k).
Proof.
  revert i k. induction l as [| x t IH]; intros i k H.
  - destruct k; discriminate H.
  - destruct k as [| k]; cbn in H.
    + injection H as <-. exists x. split; [reflexivity | f_equal; lia].
    + apply IH in H. destruct H as [x' [Hx ->]].
      exists x'. split; [exact Hx | f_equal; lia].
Qed.

Lemma reel_matches_thumbnail_click (k : nat) (s : State) :
  reel_matches s -> reel_matches (snd (thumbnail_click k s)).
Proof.
  intros Inv. unfold thumbnail_click. unfold bind, gets.
  destruct (nth_error (thumbs (page s)) k) as [t |] eqn:E; [| exact Inv].
  apply reel_matches_showImage; [| exact Inv].
  destruct Inv as (_ & c & Hr). rewrite Hr in E. unfold rendered in E.
  apply nth_error_mapi_from in E. destruct E as [img [_ ->]]. cbn. lia.
Qed.

Lemma reel_matches_prevBtn_click (s : State) :
  reel_matches s -> reel_matches (snd (prevBtn_click s)).
Proof.
  intros Inv. unfold prevBtn_click. unfold bind, gets.
  destruct (Z.gtb_spec (currentIndex s) 0); [| exact Inv].
  apply reel_matches_showImage; [lia | exact Inv].
Qed.

Lemma reel_matches_nextBtn_click (s : State) :
  reel_matches s -> reel_matches (snd (nextBtn_click s)).
Proof.
  intros Inv. unfold nextBtn_click. unfold bind, gets.
  destruct (currentIndex s <? len (images s) - 1); [| exact Inv].
  apply reel_matches_showImage; [destruct Inv; lia | exact Inv].
Qed.

Lemma reel_matches_keydown key ctrlKey answer outcome (s : State) :
  reel_matches s -> reel_matches (snd (keydown key ctrlKey answer outcome s)).
Proof.
  intros Inv. unfold keydown. unfold bind at 1. unfold gets at 1.
  destruct (negb (truthy (len (images s)))); [exact Inv |].
  destruct (String.eqb key "ArrowLeft"); [now apply reel_matches_prevBtn_click |].
  destruct (String.eqb key "ArrowRight"); [now apply reel_matches_nextBtn_click |].
  destruct (String.eqb key "Delete"); [| exact Inv].
  destruct ctrlKey; [now apply reel_matches_deleteImage | exact Inv].
Qed.


(** Where [fetchImages] does keep the index in range: the new list is
    longer than the old one, or [currentIndex] is an index of the new list. *)
Lemma fetchImages_index_in_range (newImages : list ImageRecord) (s : State) :
  len newImages > len (images s) \/ 0 <= currentIndex s < len newImages ->
  exists s',
    fetchImages (Responded true (Parsed newImages)) s = (Normal tt, s') /\
    images s' = newImages /\
    0 <= currentIndex s' < len (images s').
Proof.
  intros H. pose proof (len_nonneg (images s)) as Hpos.
  assert (T : truthy (len newImages) = true).
  { unfold truthy. destruct (Z.eqb_spec (len newImages) 0); [lia | reflexivity]. }
  rewrite fetchImages_parsed_run. cbv zeta. rewrite T. unfold reconciled.
  destruct (Z.gtb_spec (len newImages) (len (images s))) as [Hgt | Hle];
    cbn [currentIndex displayed].
  - destruct (js_index_in_range newImages (len newImages - 1)) as [img E]; [lia |].
    rewrite E. eexists. split; [reflexivity |]. cbn. split; [reflexivity | lia].
  - destruct (js_index_in_range newImages (currentIndex s)) as [img E]; [lia |].
    rewrite E. eexists. split; [reflexivity |]. cbn. split; [reflexivity | lia].
Qed.

Section EventLoop.

(** The global object of the page the script runs in. *)
Variable window : Scope.

Lemma step_reel_matches (s : State) (ev : Event) :
  reel_matches s -> reel_matches (step window s ev).
Proof.
  intros Inv. unfold step. destruct ev; cbn [dispatch].
  - now apply reel_matches_fetchImages.
  - now apply reel_matches_deleteImage.
  - unfold bind. pose proof (reel_matches_deleteImage_begin answer s Inv) as B.
    destruct (deleteImage_begin answer s) as [[a | e] s1]; exact B.
  - now apply reel_matches_deleteImage_resume.
  - apply (reel_matches_same_gallery s); [apply keeps_handleUpload | exact Inv].
  - now apply reel_matches_prevBtn_click.
  - now apply reel_matches_nextBtn_click.
  - now apply reel_matches_thumbnail_click.
  - now apply reel_matches_keydown.
  - apply (reel_matches_same_gallery s); [| exact Inv]. repeat split.
  - apply (reel_matches_same_gallery s); [| exact Inv]. repeat split.
Qed.

(** On a page that comes without thumbnails, the reel matches the list in
    every state the script reaches. *)
Theorem reachable_reel_matches (p : Page) (s : State) :
  thumbs p = [] -> reachable window p s -> reel_matches s.
Proof.
  intros Hp R. induction R as [| s ev R IH].
  - split; [cbn; lia |]. exists 0. exact Hp.
  - now apply step_reel_matches.
Qed.

(** So in every such state the reel has one thumbnail per image. *)
Corollary reachable_one_thumbnail_per_image (p : Page) (s : State) :
  thumbs p = [] -> reachable window p s ->
  len (thumbs (page s)) = len (images s) /\ 0 <= currentIndex s.
Proof.
  intros Hp R. destruct (reachable_reel_matches p s Hp R) as (Hpos & c & Hr).
  split; [| exact Hpos]. rewrite Hr. apply len_rendered.
Qed.

(** The state in which [currentIndex] lies beyond a non-empty list is one
    the script reaches: two listings, the second shorter than the first. *)
Lemma dangling_index_reachable :
  exists s,
    reachable window blank_page s /\
    0 < len (images s) <= currentIndex s.
Proof.
  exists (step window
            (step window (initial blank_page)
               (Listing (Responded true (Parsed [imgA; imgB; imgC]))))
            (Listing (Responded true (Parsed [imgA])))).
  split; [do 2 apply reach_step; apply reach_initial |].
  vm_compute. split; [reflexivity | discriminate].
Qed.

(** X24.  In every state the script reaches on such a page, [showImage(i)] with
    [i] an index of the list leaves the 'selected' class on the thumbnail at
    position [i] and on no other. *)
Corollary reachable_selection_unique (p : Page) (s : State) (i : Z) :
  thumbs p = [] -> reachable window p s ->
  0 <= i < len (images s) ->
  exists s',
    showImage i s = (Normal tt, s') /\
    currentIndex s' = i /\
    selected_positions (thumbs (page s')) = [i].
Proof.
  intros Hp R Hi.
  destruct (reachable_one_thumbnail_per_image p s Hp R) as [Hreel _].
  destruct (js_index_in_range (images s) i Hi) as [img E].
  exists (shown i img s). split; [now apply showImage_run |].
  split; [reflexivity |].
  cbn [shown page thumbs]. apply selected_highlighted. lia.
Qed.

End EventLoop.

(** ** More on rendering and selecting *)

Lemma highlighted_highlighted (c c' : Z) (ts : list Thumb) :
  highlighted c (highlighted c' ts) = highlighted c ts.
Proof. unfold highlighted. now rewrite mapi_from_mapi_from. Qed.

Lemma selected_highlighted_cases (c : Z) (ts : list Thumb) :
  selected_positions (highlighted c ts) =
  if (0 <=? c) && (c <? len ts) then [c] else [].
Proof.
  unfold selected_positions, highlighted. rewrite selected_from_highlight.
  now rewrite Z.add_0_l.
Qed.

Lemma selected_rendered (c : Z) (imgs : list ImageRecord) :
  selected_positions (rendered c imgs) =
  if (0 <=? c) && (c <? len imgs) then [c] else [].
Proof.
  rewrite <- (highlighted_rendered c c imgs), selected_highlighted_cases.
  now rewrite len_rendered.
Qed.

Lemma rendered_src (c : Z) (imgs : list ImageRecord) :
  map t_src (rendered c imgs) = map url imgs.
Proof.
  unfold rendered. generalize 0. induction imgs as [| img rest IH]; intros k.
  - reflexivity.
  - cbn. now rewrite IH.
Qed.

Lemma mapi_from_index (c : Z) (imgs : list ImageRecord) (k : nat) :
  map t_index (mapi_from (fun img i => mkThumb (url img) i (i =? c)) (Z.of_nat k) imgs) =
  map Z.of_nat (seq k (List.length imgs)).
Proof.
  revert k. induction imgs as [| img rest IH]; intros k; [reflexivity |].
  cbn [mapi_from map seq List.length t_index]. f_equal.
  replace (Z.of_nat k + 1) with (Z.of_nat (S k)) by lia. apply IH.
Qed.

Lemma rendered_index (c : Z) (imgs : list ImageRecord) :
  map t_index (rendered c imgs) = positions (List.length imgs).
Proof. apply (mapi_from_index c imgs 0). Qed.

(** X1.  [showImage(i)] with [i] an index of the list returns normally,
    sets [currentIndex] to [i], shows the url of [images[i]] in the visible
    detail pane, disables the previous button exactly at index 0 and the
    next button exactly at the last index, and leaves the list alone. *)
Theorem showImage_valid_index_renders (i : Z) (s : State) :
  0 <= i < len (images s) ->
  exists s' img,
    showImage i s = (Normal tt, s') /\
    js_index (images s) i = Some img /\
    images s' = images s /\
    currentIndex s' = i /\
    large_src (page s') = url img /\
    detail_hidden (page s') = false /\
    (prev_disabled (page s') = true <-> i = 0) /\
    (next_disabled (page s') = true <-> i = len (images s) - 1) /\
    trace s' = trace s.
Proof.
  intros R. destruct (js_index_in_range (images s) i R) as [img E].
  exists (shown i img s), img. split; [now apply showImage_run |].
  cbn [shown images currentIndex page large_src detail_hidden prev_disabled
       next_disabled trace].
  repeat (split; [reflexivity || exact E |]).
  split; [apply Z.eqb_eq |]. split; [apply Z.eqb_eq | reflexivity].
Qed.

Lemma showImage_valid_index_renders_witness :
  exists s' img,
    showImage 1 (mkState [imgA; imgB] 0 blank_page []) = (Normal tt, s') /\
    js_index [imgA; imgB] 1 = Some img /\
    images s' = [imgA; imgB] /\
    currentIndex s' = 1 /\
    large_src (page s') = url img /\
    detail_hidden (page s') = false /\
    (prev_disabled (page s') = true <-> 1 = 0) /\
    (next_disabled (page s') = true <-> 1 = 2 - 1) /\
    trace s' = [].
Proof.
  apply (showImage_valid_index_renders 1 (mkState [imgA; imgB] 0 blank_page [])).
  unfold len; simpl; lia.
Defined.

(** X2.  [showImage(i)] with [i] outside the list throws a TypeError after
    it has already assigned [currentIndex = i]; the list, the page and the
    trace are untouched. *)
Theorem showImage_invalid_index_throws (i : Z) (s : State) :
  i < 0 \/ len (images s) <= i ->
  showImage i s =
  (Throw (undefined_read "url"), mkState (images s) i (page s) (trace s)).
Proof.
  intros H. apply showImage_throws. now apply js_index_out_of_range.
Qed.

Lemma showImage_invalid_index_throws_witness :
  showImage 5 (mkState [imgA; imgB] 0 blank_page []) =
  (Throw (undefined_read "url"), mkState [imgA; imgB] 5 blank_page []).
Proof.
  apply (showImage_invalid_index_throws 5 (mkState [imgA; imgB] 0 blank_page [])).
  right. unfold len; simpl; lia.
Defined.

(** X3.  [displayThumbnails] always returns normally and rebuilds the reel
    from the list: one thumbnail per image, in order, each with the url of
    its image and its own position as click target; the placeholder is
    shown exactly when the list is empty; the thumbnail at [currentIndex]
    is the only one selected, and none is when [currentIndex] is outside
    the list.  The list, [currentIndex] and the trace are untouched. *)
Theorem displayThumbnails_renders_list (s : State) :
  exists s',
    displayThumbnails s = (Normal tt, s') /\
    images s' = images s /\ currentIndex s' = currentIndex s /\ trace s' = trace s /\
    map t_src (thumbs (page s')) = map url (images s) /\
    map t_index (thumbs (page s')) = positions (List.length (images s)) /\
    (reel_placeholder (page s') = true <-> images s = []) /\
    selected_positions (thumbs (page s')) =
      (if (0 <=? currentIndex s) && (currentIndex s <? len (images s))
       then [currentIndex s] else []).
Proof.
  exists (displayed s). split; [apply displayThumbnails_run |].
  cbn [displayed images currentIndex trace page with_reel thumbs reel_placeholder].
  do 3 (split; [reflexivity |]).
  split; [apply rendered_src |]. split; [apply rendered_index |].
  split; [| apply selected_rendered].
  destruct (images s) as [| img rest].
  - cbn. split; reflexivity.
  - rewrite truthy_len_positive
      by (rewrite len_cons; pose proof (len_nonneg rest); lia).
    cbn. split; discriminate.
Qed.

(** X4.  Rendering the reel twice is the same as rendering it once. *)
Theorem displayThumbnails_idempotent (s : State) :
  displayThumbnails (snd (displayThumbnails s)) = displayThumbnails s.
Proof.
  rewrite (displayThumbnails_run s). cbn [snd].
  rewrite (displayThumbnails_run (displayed s)). reflexivity.
Qed.

(** ** More on stepping and the keyboard *)

Lemma nextBtn_click_inside (s : State) (img : ImageRecord) :
  currentIndex s < len (images s) - 1 ->
  js_index (images s) (currentIndex s + 1) = Some img ->
  nextBtn_click s = (Normal tt, shown (currentIndex s + 1) img s).
Proof.
  intros H E. unfold nextBtn_click. unfold bind, gets.
  destruct (Z.ltb_spec (currentIndex s) (len (images s) - 1)); [| lia].
  now apply showImage_run.
Qed.

Lemma prevBtn_click_inside (s : State) (img : ImageRecord) :
  0 < currentIndex s ->
  js_index (images s) (currentIndex s - 1) = Some img ->
  prevBtn_click s = (Normal tt, shown (currentIndex s - 1) img s).
Proof.
  intros H E. unfold prevBtn_click. unfold bind, gets.
  destruct (Z.gtb_spec (currentIndex s) 0); [| lia].
  now apply showImage_run.
Qed.

Lemma shown_shown (i j : Z) (img img' : ImageRecord) (s : State) :
  shown i img (shown j img' s) = shown i img s.
Proof.
  unfold shown. cbn [images page thumbs reel_placeholder upload_disabled
                     upload_text file_input trace].
  now rewrite highlighted_highlighted.
Qed.

(** X5.  With [currentIndex] an index of the list: where a next image
    exists, next followed by previous ends in the state [showImage] of the
    index one started from reaches; where a previous image exists, so does
    previous followed by next. *)
Theorem step_there_and_back (s : State) :
  0 <= currentIndex s < len (images s) ->
  (currentIndex s < len (images s) - 1 ->
     prevBtn_click (snd (nextBtn_click s)) = showImage (currentIndex s) s) /\
  (0 < currentIndex s ->
     nextBtn_click (snd (prevBtn_click s)) = showImage (currentIndex s) s).
Proof.
  intros R.
  destruct (js_index_in_range (images s) (currentIndex s) R) as [img E].
  rewrite (showImage_run _ img s E). split; intros H.
  - destruct (js_index_in_range (images s) (currentIndex s + 1)) as [img' E'];
      [lia |].
    rewrite (nextBtn_click_inside s img') by (lia || exact E'). cbn [snd].
    rewrite (prevBtn_click_inside _ img);
      cbn [shown currentIndex images];
      replace (currentIndex s + 1 - 1) with (currentIndex s) by lia;
      [| lia | exact E].
    now rewrite shown_shown.
  - destruct (js_index_in_range (images s) (currentIndex s - 1)) as [img' E'];
      [lia |].
    rewrite (prevBtn_click_inside s img') by (lia || exact E'). cbn [snd].
    rewrite (nextBtn_click_inside _ img);
      cbn [shown currentIndex images];
      replace (currentIndex s - 1 + 1) with (currentIndex s) by lia;
      [| lia | exact E].
    now rewrite shown_shown.
Qed.

Lemma step_there_and_back_witness :
  (currentIndex (mkState [imgA; imgB; imgC] 1 blank_page []) <
   len (images (mkState [imgA; imgB; imgC] 1 blank_page [])) - 1 ->
     prevBtn_click (snd (nextBtn_click (mkState [imgA; imgB; imgC] 1 blank_page []))) =
     showImage 1 (mkState [imgA; imgB; imgC] 1 blank_page [])) /\
  (0 < currentIndex (mkState [imgA; imgB; imgC] 1 blank_page []) ->
     nextBtn_click (snd (prevBtn_click (mkState [imgA; imgB; imgC] 1 blank_page []))) =
     showImage 1 (mkState [imgA; imgB; imgC] 1 blank_page [])).
Proof.
  apply (step_there_and_back (mkState [imgA; imgB; imgC] 1 blank_page [])).
  unfold len; simpl; lia.
Defined.

Lemma steps_within_showImage (i : Z) (s : State) :
  0 <= i < len (images s) -> steps_within (showImage i) s.
Proof.
  intros R. destruct (js_index_in_range (images s) i R) as [img E].
  exists (shown i img s). split; [now apply showImage_run |].
  split; [reflexivity | exact R].
Qed.

Lemma steps_within_ret (s : State) :
  0 <= currentIndex s < len (images s) -> steps_within (ret tt) s.
Proof. intros R. exists s. repeat split; apply R. Qed.

(** X6.  With [currentIndex] an index of the list, the previous and next
    buttons and the two arrow keys never throw, keep the list, and leave
    [currentIndex] an index of the list. *)
Theorem stepping_stays_in_range
    (ctrlKey answer : bool) (outcome : Fetched unit) (s : State) :
  0 <= currentIndex s < len (images s) ->
  steps_within prevBtn_click s /\
  steps_within nextBtn_click s /\
  steps_within (keydown "ArrowLeft" ctrlKey answer outcome) s /\
  steps_within (keydown "ArrowRight" ctrlKey answer outcome) s.
Proof.
  intros R.
  assert (P : steps_within prevBtn_click s).
  { unfold steps_within, prevBtn_click. unfold bind, gets.
    destruct (Z.gtb_spec (currentIndex s) 0);
      [apply steps_within_showImage; lia | now apply steps_within_ret]. }
  assert (N : steps_within nextBtn_click s).
  { unfold steps_within, nextBtn_click. unfold bind, gets.
    destruct (Z.ltb_spec (currentIndex s) (len (images s) - 1));
      [apply steps_within_showImage; lia | now apply steps_within_ret]. }
  split; [exact P |]. split; [exact N |].
  split.
  - unfold steps_within, keydown. unfold bind at 1. unfold gets at 1.
    rewrite truthy_len_positive by lia. exact P.
  - unfold steps_within, keydown. unfold bind at 1. unfold gets at 1.
    rewrite truthy_len_positive by lia. exact N.
Qed.

Lemma stepping_stays_in_range_witness :
  steps_within prevBtn_click (mkState [imgA; imgB; imgC] 2 blank_page []) /\
  steps_within nextBtn_click (mkState [imgA; imgB; imgC] 2 blank_page []) /\
  steps_within (keydown "ArrowLeft" false false (Responded true tt))
    (mkState [imgA; imgB; imgC] 2 blank_page []) /\
  steps_within (keydown "ArrowRight" false false (Responded true tt))
    (mkState [imgA; imgB; imgC] 2 blank_page []).
Proof.
  apply (stepping_stays_in_range false false (Responded true tt)
           (mkState [imgA; imgB; imgC] 2 blank_page [])).
  unfold len; simpl; lia.
Defined.

(** X7.  The [keydown] listener does nothing at all when the list is
    empty, when the key is none of ArrowLeft, ArrowRight and Delete, and
    when the key is Delete without Ctrl. *)
Theorem keydown_ignored
    (key : string) (ctrlKey answer : bool) (outcome : Fetched unit) (s : State) :
  len (images s) = 0 \/
  (key <> "ArrowLeft" /\ key <> "ArrowRight" /\ key <> "Delete") \/
  (key = "Delete" /\ ctrlKey = false) ->
  keydown key ctrlKey answer outcome s = (Normal tt, s).
Proof.
  intros H. unfold keydown. unfold bind at 1. unfold gets at 1.
  destruct (Z.eq_dec (len (images s)) 0) as [Z0 | NZ].
  - rewrite Z0. reflexivity.
  - pose proof (len_nonneg (images s)).
    rewrite truthy_len_positive by lia. cbn [negb].
    destruct H as [H | [(H1 & H2 & H3) | (-> & ->)]]; [lia | | reflexivity].
    destruct (String.eqb_spec key "ArrowLeft"); [contradiction |].
    destruct (String.eqb_spec key "ArrowRight"); [contradiction |].
    destruct (String.eqb_spec key "Delete"); [contradiction | reflexivity].
Qed.

Lemma keydown_ignored_witness :
  keydown "Delete" false true (Responded true tt)
    (mkState [imgA; imgB] 1 blank_page []) =
  (Normal tt, mkState [imgA; imgB] 1 blank_page []).
Proof.
  apply (keydown_ignored "Delete" false true (Responded true tt)
           (mkState [imgA; imgB] 1 blank_page [])).
  right. right. split; reflexivity.
Defined.

(** ** More on deleting *)

Lemma requests_add_trace (es : list Effect) (s : State) :
  requests (trace (add_trace es s)) = requests (trace s) ++ requests es.
Proof. unfold add_trace. cbn [trace]. apply requests_app. Qed.

Lemma deleteImage_resume_requests outcome (s : State) :
  requests (trace (snd (deleteImage_resume outcome s))) = requests (trace s).
Proof.
  destruct (delete_failure outcome) as [e |] eqn:F.
  - rewrite deleteImage_resume_failure_run with (e := e) by exact F.
    cbn [snd]. rewrite requests_add_trace. cbn. now rewrite app_nil_r.
  - destruct outcome as [e0 | [|] b]; try discriminate F.
    rewrite deleteImage_resume_success_run. cbv zeta. cbn [images].
    destruct (len (splice1 (currentIndex s) (images s)) =? 0); [reflexivity |].
    destruct (js_index (splice1 (currentIndex s) (images s))
                (Z.min (currentIndex s)
                   (len (splice1 (currentIndex s) (images s)) - 1)));
      [reflexivity |].
    cbn [snd]. rewrite requests_add_trace. cbn. now rewrite app_nil_r.
Qed.

Lemma deleteImage_begin_requests (answer : bool) (s : State) :
  requests (trace (snd (deleteImage_begin answer s))) =
  requests (trace s) ++
  match js_index (images s) (currentIndex s) with
  | Some img =>
      match encodeURIComponent (public_id img) with
      | Some _ => if answer then [DeleteImage (public_id img)] else []
      | None => []
      end
  | None => []
  end.
Proof.
  pose proof (len_nonneg (images s)) as Hlen.
  destruct (Z.eq_dec (len (images s)) 0) as [Z0 | NZ].
  { rewrite deleteImage_begin_guard_run by (now left).
    rewrite js_index_out_of_range by lia. cbn [snd]. now rewrite app_nil_r. }
  destruct (Z_lt_dec (currentIndex s) 0) as [Neg | Pos].
  { rewrite deleteImage_begin_guard_run by (now right).
    rewrite js_index_out_of_range by lia. cbn [snd]. now rewrite app_nil_r. }
  destruct answer.
  - destruct (js_index (images s) (currentIndex s)) as [img |] eqn:E.
    + destruct (encodeURIComponent (public_id img)) as [u |] eqn:U.
      * rewrite (deleteImage_begin_sent_run img u s E U).
        cbn [snd]. now rewrite requests_add_trace.
      * rewrite (deleteImage_begin_unencodable_run img s E U).
        cbn [snd]. now rewrite requests_add_trace.
    + rewrite deleteImage_begin_undefined_run by (lia || exact E).
      cbn [snd]. now rewrite requests_add_trace.
  - rewrite deleteImage_begin_declined_run by lia. cbn [snd].
    rewrite requests_add_trace. cbn [requests].
    destruct (js_index (images s) (currentIndex s)) as [img |]; [| reflexivity].
    now destruct (encodeURIComponent (public_id img)).
Qed.

(** X8.  Whatever the state, the answer and the outcome, [deleteImage]
    sends no request unless the user has confirmed, [currentIndex] is an
    index of the list and the [public_id] of [images[currentIndex]] can be
    encoded; then it sends exactly one, the DELETE for that [public_id].
    The request goes out before the [await]; the part after it sends
    none. *)
Theorem deleteImage_requests (answer : bool) (outcome : Fetched unit) (s : State) :
  let sent :=
    match js_index (images s) (currentIndex s) with
    | Some img =>
        match encodeURIComponent (public_id img) with
        | Some _ => if answer then [DeleteImage (public_id img)] else []
        | None => []
        end
    | None => []
    end in
  requests (trace (snd (deleteImage_begin answer s))) = requests (trace s) ++ sent /\
  requests (trace (snd (deleteImage_resume outcome s))) = requests (trace s) /\
  requests (trace (snd (deleteImage answer outcome s))) = requests (trace s) ++ sent.
Proof.
  cbv zeta. split; [apply deleteImage_begin_requests |].
  split; [apply deleteImage_resume_requests |].
  rewrite <- deleteImage_begin_requests.
  unfold deleteImage, bind.
  destruct (deleteImage_begin answer s) as [[[id |] | e] s1]; cbn [snd];
    [apply deleteImage_resume_requests | reflexivity | reflexivity].
Qed.

(** X9.  When the user declines the prompt, [deleteImage] returns normally
    with the list, [currentIndex] and the page as they were, whatever the
    state. *)
Theorem deleteImage_declined_changes_nothing (outcome : Fetched unit) (s : State) :
  exists s',
    deleteImage false outcome s = (Normal tt, s') /\
    images s' = images s /\ currentIndex s' = currentIndex s /\ page s' = page s.
Proof.
  pose proof (len_nonneg (images s)) as Hlen.
  destruct (Z.eq_dec (len (images s)) 0) as [Z0 | NZ];
    [exists s; split; [apply deleteImage_guard_run; now left | repeat split] |].
  destruct (Z_lt_dec (currentIndex s) 0) as [Neg | Pos];
    [exists s; split; [apply deleteImage_guard_run; now right | repeat split] |].
  eexists. split; [apply deleteImage_declined_run; lia | repeat split].
Qed.

(** ** More on fetching *)

(** X10.  Whatever the outcome and the state, [fetchImages] returns
    normally (no exception leaves it) and sends exactly one request, the
    listing. *)
Theorem fetchImages_never_throws
    (outcome : Fetched (Json (list ImageRecord))) (s : State) :
  fst (fetchImages outcome s) = Normal tt /\
  requests (trace (snd (fetchImages outcome s))) = requests (trace s) ++ [GetImages].
Proof.
  destruct (listing_failure outcome) as [e |] eqn:F.
  - rewrite fetchImages_failure_run with (e := e) by exact F.
    split; [reflexivity |]. cbn [snd]. now rewrite requests_add_trace.
  - destruct outcome as [e0 | [|] [newImages | e0]]; try discriminate F.
    rewrite fetchImages_parsed_run. cbv zeta.
    assert (T : requests (trace (reconciled newImages s)) =
                requests (trace s) ++ [GetImages]).
    { unfold reconciled. destruct (len newImages >? len (images s));
        cbn [displayed trace]; repeat rewrite requests_app; cbn;
        now rewrite ?app_nil_r. }
    destruct (truthy (len newImages)).
    + destruct (js_index newImages (currentIndex (reconciled newImages s))).
      * split; [reflexivity | exact T].
      * split; [reflexivity |]. cbn [snd]. rewrite requests_add_trace, T. cbn.
        now rewrite app_nil_r.
    + split; [reflexivity | exact T].
Qed.

(** X11.  A successful listing that is empty empties the list, clears the
    reel in favour of the placeholder, hides the detail pane and shows no
    notice; [currentIndex] is kept as it is. *)
Theorem fetchImages_empty_listing (s : State) :
  exists s',
    fetchImages (Responded true (Parsed [])) s = (Normal tt, s') /\
    images s' = [] /\
    currentIndex s' = currentIndex s /\
    thumbs (page s') = [] /\
    reel_placeholder (page s') = true /\
    detail_hidden (page s') = true /\
    trace s' = trace s ++ [Fetch GetImages].
Proof.
  rewrite fetchImages_parsed_run. cbv zeta. unfold reconciled.
  pose proof (len_nonneg (images s)).
  destruct (Z.gtb_spec (len (@nil ImageRecord)) (len (images s))) as [Hgt | _];
    [rewrite len_nil in Hgt; lia |].
  cbn. eexists. split; [reflexivity | repeat split].
Qed.

(** X12.  A successful listing that is not longer than the list held and
    still contains [currentIndex] keeps the selection: the list is
    replaced, [currentIndex] is unchanged, the detail pane shows the new
    record at that index, exactly that thumbnail is selected, and nothing
    but the request is observable (no scrolling, no notice). *)
Theorem fetchImages_refresh_keeps_selection
    (newImages : list ImageRecord) (s : State) :
  len newImages <= len (images s) ->
  0 <= currentIndex s < len newImages ->
  exists s' img,
    fetchImages (Responded true (Parsed newImages)) s = (Normal tt, s') /\
    images s' = newImages /\
    currentIndex s' = currentIndex s /\
    js_index newImages (currentIndex s) = Some img /\
    large_src (page s') = url img /\
    detail_hidden (page s') = false /\
    selected_positions (thumbs (page s')) = [currentIndex s] /\
    trace s' = trace s ++ [Fetch GetImages].
Proof.
  intros Hle R.
  rewrite fetchImages_parsed_run. cbv zeta. unfold reconciled.
  destruct (Z.gtb_spec (len newImages) (len (images s))) as [Hgt | _]; [lia |].
  rewrite truthy_len_positive by lia. cbn [currentIndex displayed].
  destruct (js_index_in_range newImages (currentIndex s) R) as [img E].
  rewrite E. do 2 eexists. split; [reflexivity |].
  cbn [shown displayed images currentIndex page large_src detail_hidden thumbs
       with_reel trace].
  do 3 (split; [reflexivity |]).
  do 2 (split; [reflexivity |]). split; [| reflexivity].
  apply selected_highlighted. rewrite len_rendered. exact R.
Qed.

Lemma fetchImages_refresh_keeps_selection_witness :
  exists s' img,
    fetchImages (Responded true (Parsed [imgC; imgB]))
      (mkState [imgA; imgB; imgC] 1 blank_page []) = (Normal tt, s') /\
    images s' = [imgC; imgB] /\
    currentIndex s' = 1 /\
    js_index [imgC; imgB] 1 = Some img /\
    large_src (page s') = url img /\
    detail_hidden (page s') = false /\
    selected_positions (thumbs (page s')) = [1] /\
    trace s' = [Fetch GetImages].
Proof.
  apply (fetchImages_refresh_keeps_selection [imgC; imgB]
           (mkState [imgA; imgB; imgC] 1 blank_page []));
    unfold len; simpl; lia.
Defined.

(** X13.  A successful listing longer than the list held, by however many
    images, selects the last one: [currentIndex] is the last index, the reel
    is scrolled to its end, the detail pane shows the last record, exactly
    the last thumbnail is selected and the next button is disabled. *)
Theorem fetchImages_growth_shows_last (newImages : list ImageRecord) (s : State) :
  len newImages > len (images s) ->
  exists s' img,
    fetchImages (Responded true (Parsed newImages)) s = (Normal tt, s') /\
    images s' = newImages /\
    currentIndex s' = len newImages - 1 /\
    js_index newImages (len newImages - 1) = Some img /\
    large_src (page s') = url img /\
    detail_hidden (page s') = false /\
    next_disabled (page s') = true /\
    selected_positions (thumbs (page s')) = [len newImages - 1] /\
    trace s' = trace s ++ [Fetch GetImages; ScrollReelToEnd].
Proof.
  intros Hgt. pose proof (len_nonneg (images s)) as Hpos.
  rewrite fetchImages_parsed_run. cbv zeta. unfold reconciled.
  destruct (Z.gtb_spec (len newImages) (len (images s))) as [_ | Hle]; [| lia].
  rewrite truthy_len_positive by lia. cbn [currentIndex displayed].
  destruct (js_index_in_range newImages (len newImages - 1)) as [img E]; [lia |].
  rewrite E. do 2 eexists. split; [reflexivity |].
  cbn [shown displayed images currentIndex page large_src detail_hidden thumbs
       with_reel trace next_disabled].
  do 3 (split; [reflexivity |]).
  do 2 (split; [reflexivity |]). split; [apply Z.eqb_refl |].
  split; [| now rewrite <- app_assoc].
  apply selected_highlighted. rewrite len_rendered. lia.
Qed.

Lemma fetchImages_growth_shows_last_witness :
  exists s' img,
    fetchImages (Responded true (Parsed [imgA; imgB; imgC]))
      (initial blank_page) = (Normal tt, s') /\
    images s' = [imgA; imgB; imgC] /\
    currentIndex s' = 2 /\
    js_index [imgA; imgB; imgC] 2 = Some img /\
    large_src (page s') = url img /\
    detail_hidden (page s') = false /\
    next_disabled (page s') = true /\
    selected_positions (thumbs (page s')) = [2] /\
    trace s' = [Fetch GetImages; ScrollReelToEnd].
Proof.
  apply (fetchImages_growth_shows_last [imgA; imgB; imgC] (initial blank_page)).
  unfold len; simpl; lia.
Defined.

Lemma fetchImages_remote_failure_keeps_state_witness :
  exists s',
    fetchImages (Responded false (Parsed [imgA]))
      (mkState [imgA; imgB] 1 blank_page []) = (Normal tt, s') /\
    images s' = [imgA; imgB] /\ currentIndex s' = 1 /\ page s' = blank_page /\
    last_effect s' = Some (Alert "Failed to load images. Refresh page.").
Proof.
  apply (fetchImages_remote_failure_keeps_state (Responded false (Parsed [imgA]))
           (mkError PlainError "Fetch failed")
           (mkState [imgA; imgB] 1 blank_page [])).
  reflexivity.
Defined.

(** ** More on uploading *)

Lemma file_input_set_disabled (v : bool) (id : string) (p : Page) :
  file_input (set_disabled v id p) = file_input p.
Proof.
  unfold set_disabled.
  destruct (String.eqb id "upload-btn"); [reflexivity |].
  destruct (String.eqb id "prev"); [reflexivity |].
  destruct (String.eqb id "next"); reflexivity.
Qed.

Lemma file_input_set_textContent (v : string) (id : string) (p : Page) :
  file_input (set_textContent v id p) = file_input p.
Proof.
  unfold set_textContent. destruct (String.eqb id "upload-btn"); reflexivity.
Qed.

Ltac run_handleUpload F :=
  unfold handleUpload;
  unfold bind at 1; unfold emit at 1, modify at 1;
  unfold bind at 1; unfold gets at 1; cbn [page]; rewrite F; cbv zeta;
  unfold try_catch_finally, assign_on;
  rewrite resolve_uploadBtn_in_try, resolve_uploadBtn_in_finally.

(** X14.  With a file selected and the upload accepted, [handleUpload]
    clears the file selection and sends the upload followed by a new
    listing request; it shows no notice and keeps the list and
    [currentIndex], whatever the page's global names. *)
Theorem handleUpload_success_clears_and_refetches
    (window : Scope) (body : Json (option string))
    (file : string) (rest : list string) (s : State) :
  file_input (page s) = file :: rest ->
  exists c s',
    handleUpload window (Responded true body) s = (c, s') /\
    file_input (page s') = [] /\
    trace s' = trace s ++ [PreventDefault; Fetch (PostUpload file); Fetch GetImages] /\
    images s' = images s /\ currentIndex s' = currentIndex s.
Proof.
  intros F. run_handleUpload F.
  destruct (lookup window "uploadBtn") as [[id |] |];
    unfold_js; cbn -[set_disabled set_textContent];
    do 2 eexists; (split; [reflexivity |]);
    cbn -[set_disabled set_textContent];
    rewrite ?file_input_set_textContent, ?file_input_set_disabled;
    repeat rewrite <- app_assoc; repeat split.
Qed.

Lemma handleUpload_success_clears_and_refetches_witness :
  exists c s',
    handleUpload (named_access script_ids) (Responded true (Parsed None))
      gallery_with_file = (c, s') /\
    file_input (page s') = [] /\
    trace s' = [PreventDefault; Fetch (PostUpload "photo.png"); Fetch GetImages] /\
    images s' = [imgA] /\ currentIndex s' = 0.
Proof.
  apply (handleUpload_success_clears_and_refetches (named_access script_ids)
           (Parsed None) "photo.png" [] gallery_with_file).
  reflexivity.
Defined.

(** X15.  With a file selected and the upload failing (request rejected,
    or a non-ok response), [handleUpload] alerts "Failed to upload: "
    followed by the message of the rejection, of the unreadable body, or
    the [error] field of the response, "Upload failed" standing in for a
    missing or empty field; the file selection is kept and no listing
    request is sent. *)
Theorem handleUpload_failure_reports
    (window : Scope) (outcome : Fetched (Json (option string))) (msg : string)
    (file : string) (rest : list string) (s : State) :
  upload_failure_message outcome = Some msg ->
  file_input (page s) = file :: rest ->
  exists c s' e,
    handleUpload window outcome s = (c, s') /\
    trace s' = trace s ++ [PreventDefault; Fetch (PostUpload file);
                           ConsoleError "Upload error:" e;
                           Alert ("Failed to upload: " ++ msg)%string] /\
    message e = msg /\
    file_input (page s') = file :: rest.
Proof.
  intros U F. run_handleUpload F.
  destruct outcome as [e0 | [|] [err | e0]]; cbn in U; inversion U; subst;
    destruct (lookup window "uploadBtn") as [[id |] |];
    unfold_js; cbn -[set_disabled set_textContent String.append or_else];
    do 3 eexists; (split; [reflexivity |]);
    cbn -[set_disabled set_textContent String.append or_else];
    rewrite ?file_input_set_textContent, ?file_input_set_disabled;
    repeat rewrite <- app_assoc;
    (split; [reflexivity |]); (split; [reflexivity |]); exact F || reflexivity.
Qed.

Lemma handleUpload_failure_reports_witness :
  exists c s' e,
    handleUpload (named_access script_ids) (Responded false (Parsed (Some "")))
      gallery_with_file = (c, s') /\
    trace s' = [PreventDefault; Fetch (PostUpload "photo.png");
                ConsoleError "Upload error:" e;
                Alert "Failed to upload: Upload failed"] /\
    message e = "Upload failed" /\
    file_input (page s') = ["photo.png"].
Proof.
  apply (handleUpload_failure_reports (named_access script_ids)
           (Responded false (Parsed (Some ""))) "Upload failed" "photo.png" []
           gallery_with_file);
    reflexivity.
Defined.

(** X16.  Whatever the page's global names, the outcome and the state,
    [handleUpload] leaves the list, [currentIndex] and the reel as they
    were. *)
Theorem handleUpload_leaves_gallery_alone
    (window : Scope) (outcome : Fetched (Json (option string))) (s : State) :
  images (snd (handleUpload window outcome s)) = images s /\
  currentIndex (snd (handleUpload window outcome s)) = currentIndex s /\
  thumbs (page (snd (handleUpload window outcome s))) = thumbs (page s).
Proof. apply keeps_handleUpload. Qed.

Lemma handleUpload_named_access_never_releases_witness :
  exists c s',
    handleUpload (named_access ["upload-btn"; "uploadBtn"])
      (Responded true (Parsed None)) gallery_with_file = (c, s') /\
    upload_disabled (page s') = true /\
    upload_text (page s') = "Uploading...".
Proof.
  apply (handleUpload_named_access_never_releases ["upload-btn"; "uploadBtn"]
           (Responded true (Parsed None)) "photo.png" [] gallery_with_file).
  reflexivity.
Defined.

(** ** Saving and fullscreen *)

(** X18.  With [currentIndex] an index of the list, the save listener
    clicks a link to the url of the current image that downloads under
    its filename, and changes nothing. *)
Theorem saveBtn_click_downloads_current (s : State) :
  0 <= currentIndex s < len (images s) ->
  exists img,
    js_index (images s) (currentIndex s) = Some img /\
    saveBtn_click s = (Normal (Some (mkLink (url img) (filename img))), s).
Proof.
  intros R. destruct (js_index_in_range (images s) (currentIndex s) R) as [img E].
  exists img. split; [exact E |].
  unfold saveBtn_click, read_at. unfold bind at 1 2. unfold gets.
  rewrite truthy_len_positive by lia.
  destruct (Z.geb_spec (currentIndex s) 0); [| lia].
  cbn [andb]. unfold_js. rewrite E. reflexivity.
Qed.

Lemma saveBtn_click_downloads_current_witness :
  exists img,
    js_index [imgA; imgB] 1 = Some img /\
    saveBtn_click (mkState [imgA; imgB] 1 blank_page []) =
    (Normal (Some (mkLink (url img) (filename img))),
     mkState [imgA; imgB] 1 blank_page []).
Proof.
  apply (saveBtn_click_downloads_current (mkState [imgA; imgB] 1 blank_page [])).
  unfold len; simpl; lia.
Defined.

(** X19.  The guard of the save listener has no upper bound either: with
    [0 < images.length <= currentIndex] the listener throws a TypeError on
    [images[currentIndex].url] and clicks no link; the state is
    unchanged. *)
Theorem saveBtn_click_dangling_index_throws (s : State) :
  0 < len (images s) <= currentIndex s ->
  saveBtn_click s = (Throw (undefined_read "url"), s).
Proof.
  intros R.
  unfold saveBtn_click, read_at. unfold bind at 1 2. unfold gets.
  rewrite truthy_len_positive by lia.
  destruct (Z.geb_spec (currentIndex s) 0); [| lia].
  cbn [andb]. unfold_js. rewrite js_index_out_of_range by lia. reflexivity.
Qed.

Lemma saveBtn_click_dangling_index_throws_witness :
  saveBtn_click (mkState [imgA] 2 blank_page []) =
  (Throw (undefined_read "url"), mkState [imgA] 2 blank_page []).
Proof.
  apply (saveBtn_click_dangling_index_throws (mkState [imgA] 2 blank_page [])).
  unfold len; simpl; lia.
Defined.

(** X20.  [toggleFullscreen] leaves fullscreen whenever the document is in
    it, whatever methods exist; otherwise it prefers the standard
    [requestFullscreen] to the prefixed ones, and it throws exactly when
    the document is not in fullscreen and the image has none of the four
    methods. *)
Theorem toggleFullscreen_calls (fullscreenElement : bool) (api : FullscreenApi) :
  (fullscreenElement = true ->
     toggleFullscreen fullscreenElement api = Normal ExitFullscreen) /\
  (fullscreenElement = false -> requestFullscreen api = true ->
     toggleFullscreen fullscreenElement api = Normal RequestFullscreen) /\
  ((exists e, toggleFullscreen fullscreenElement api = Throw e) <->
   fullscreenElement = false /\
   requestFullscreen api = false /\ mozRequestFullScreen api = false /\
   webkitRequestFullscreen api = false /\ msRequestFullscreen api = false).
Proof.
  destruct api as [r m w ms]. unfold toggleFullscreen. cbn.
  split; [intros ->; reflexivity |].
  split; [intros -> ->; reflexivity |].
  destruct fullscreenElement, r, m, w, ms; cbn; split;
    solve [ intros [e H]; discriminate H
          | intros (H1 & H2 & H3 & H4 & H5); congruence
          | intros _; repeat split
          | intros _; eexists; reflexivity ].
Qed.

Lemma fetchImages_shorter_list_dangles_witness :
  exists s',
    fetchImages (Responded true (Parsed [imgB]))
      (mkState [imgA; imgB] 1 blank_page []) = (Normal tt, s') /\
    images s' = [imgB] /\
    currentIndex s' = 1 /\
    last_effect s' = Some (Alert "Failed to load images. Refresh page.").
Proof.
  apply (fetchImages_shorter_list_dangles [imgB]
           (mkState [imgA; imgB] 1 blank_page []));
    unfold len; simpl; lia.
Defined.

(** ** More on the reachable states *)

Section ReachableStates.

(** The global object of the page the script runs in. *)
Variable window : Scope.

(** X22.  On a page that comes without thumbnails, in every state the
    script reaches the reel shows the list (one thumbnail per image, in
    order, with the url of its image and its own position as click
    target), [currentIndex] is not negative, and at most one thumbnail is
    selected. *)
Theorem reachable_reel_shows_list (p : Page) (s : State) :
  thumbs p = [] -> reachable window p s ->
  map t_src (thumbs (page s)) = map url (images s) /\
  map t_index (thumbs (page s)) = positions (List.length (images s)) /\
  0 <= currentIndex s /\
  (List.length (selected_positions (thumbs (page s))) <= 1)%nat.
Proof.
  intros Hp R.
  destruct (reachable_reel_matches window p s Hp R) as (Hpos & c & Hr).
  rewrite Hr. split; [apply rendered_src |]. split; [apply rendered_index |].
  split; [exact Hpos |]. rewrite selected_rendered.
  destruct ((0 <=? c) && (c <? len (images s))); cbn; lia.
Qed.

(** X23.  On such a page, in every state the script reaches, a click on
    the [k]-th thumbnail returns normally and shows the [k]-th image:
    [currentIndex] becomes [k], the detail pane is visible with the url of
    [images[k]], and the [k]-th thumbnail is the only one selected. *)
Theorem reachable_thumbnail_click_shows_image (p : Page) (s : State) (k : nat) :
  thumbs p = [] -> reachable window p s ->
  (k < List.length (images s))%nat ->
  exists s' img,
    thumbnail_click k s = (Normal tt, s') /\
    nth_error (images s) k = Some img /\
    images s' = images s /\
    currentIndex s' = Z.of_nat k /\
    large_src (page s') = url img /\
    detail_hidden (page s') = false /\
    selected_positions (thumbs (page s')) = [Z.of_nat k].
Proof.
  intros Hp R Hk.
  destruct (reachable_reel_matches window p s Hp R) as (Hpos & c & Hr).
  destruct (nth_error (images s) k) as [img |] eqn:E;
    [| apply nth_error_None in E; lia].
  assert (Et : exists t, nth_error (thumbs (page s)) k = Some t /\
                         t_index t = Z.of_nat k).
  { destruct (nth_error (thumbs (page s)) k) as [t |] eqn:T.
    - exists t. split; [reflexivity |]. rewrite Hr in T. unfold rendered in T.
      apply nth_error_mapi_from in T. destruct T as [x [_ ->]]. cbn. lia.
    - apply nth_error_None in T. rewrite Hr in T. unfold rendered in T.
      rewrite mapi_from_length in T. lia. }
  destruct Et as [t [T Ti]].
  assert (Ej : js_index (images s) (Z.of_nat k) = Some img).
  { unfold js_index. destruct (Z.ltb_spec (Z.of_nat k) 0); [lia |].
    now rewrite Nat2Z.id. }
  exists (shown (Z.of_nat k) img s), img.
  split.
  - unfold thumbnail_click. unfold bind, gets. rewrite T, Ti.
    now apply showImage_run.
  - split; [reflexivity |].
    cbn [shown images currentIndex page large_src detail_hidden thumbs].
    do 4 (split; [reflexivity |]).
    apply selected_highlighted. rewrite Hr, len_rendered. unfold len. lia.
Qed.

End ReachableStates.

Lemma reachable_reel_shows_list_witness :
  map t_src (thumbs (page first_listing)) = map url (images first_listing) /\
  map t_index (thumbs (page first_listing)) =
    positions (List.length (images first_listing)) /\
  0 <= currentIndex first_listing /\
  (List.length (selected_positions (thumbs (page first_listing))) <= 1)%nat.
Proof.
  apply (reachable_reel_shows_list (named_access script_ids) blank_page first_listing);
    [reflexivity | apply reach_step, reach_initial].
Defined.

Lemma reachable_thumbnail_click_shows_image_witness :
  exists s' img,
    thumbnail_click 0 first_listing = (Normal tt, s') /\
    nth_error (images first_listing) 0 = Some img /\
    images s' = images first_listing /\
    currentIndex s' = 0 /\
    large_src (page s') = url img /\
    detail_hidden (page s') = false /\
    selected_positions (thumbs (page s')) = [0].
Proof.
  apply (reachable_thumbnail_click_shows_image (named_access script_ids)
           blank_page first_listing 0);
    [reflexivity | apply reach_step, reach_initial | vm_compute; lia].
Defined.

Lemma reachable_selection_unique_witness :
  exists s',
    showImage 1 first_listing = (Normal tt, s') /\
    currentIndex s' = 1 /\
    selected_positions (thumbs (page s')) = [1].
Proof.
  apply (reachable_selection_unique (named_access script_ids) blank_page
           first_listing 1);
    [reflexivity | apply reach_step, reach_initial
     | vm_compute; split; [discriminate | reflexivity]].
Defined.
